(** * Algebra pool pricing: liquidity book, event handlers, bit width

    A shallow embedding of [src/dex/algebra/algebra.ts],
    [src/dex/algebra/mostSignificantBit.ts], the pool types and the
    internal constants, with the properties of the specification stated
    over it.

    Conventions.
    - JS [number]s that hold tick indices, array indices and fees are
      integers and are modelled by [Z]; so are [bigint]s, and the JSBI
      values that only functions of the JSBI library handle
      ([mostSignificantBit]).  Where the code applies an operator of the
      language to a JSBI object ([getBuyPrice], [getSellPrice]) the object
      is modelled as the object it is.
    - A JS call either returns or throws: [Outcome].  Loops are run with
      fuel; [OutOfFuel] is the third outcome and is never caught.
    - The handlers mutate the pool object they are given, so pool objects
      live in a store and are passed by reference ([PoolRef]). *)

From Stdlib Require Import ZArith Lia Bool List.
From stdpp Require Import base option list gmap strings.

Local Open Scope Z_scope.

(** ** Outcomes of JS evaluation *)

Inductive JsError : Type :=
| TypeError
| ReferenceError
| RangeError
| DecodeError
| PlainError.

Inductive Outcome (A : Type) : Type :=
| Ret (a : A)
| Throw (e : JsError)
| OutOfFuel.

Arguments Ret {A} a.
Arguments Throw {A} e.
Arguments OutOfFuel {A}.

(** ** internalConstants.ts and mostSignificantBit.ts *)

Module BitWidth.

Definition ZERO : Z := 0.

Definition MaxUint256 : Z :=
  115792089237316195423570985008687907853269984665640564039457584007913129639935.

Definition TWO : Z := 2.

(** [[128, 64, 32, 16, 8, 4, 2, 1].map(pow => [pow, 2 ** pow])] *)
Definition POWERS_OF_2 : list (Z * Z) :=
  List.map (fun pow : Z => (pow, TWO ^ pow)) [128; 64; 32; 16; 8; 4; 2; 1].

(** One turn of the [for] loop over [POWERS_OF_2]; the state is [(x, msb)]. *)
Definition msb_step (st : Z * Z) (pm : Z * Z) : Z * Z :=
  let '(x, msb) := st in
  let '(power, min) := pm in
  if x >=? min then (Z.shiftr x power, msb + power) else (x, msb).

(** [null] is [None]. *)
Definition mostSignificantBit (x : Z) : option Z :=
  if (x <=? ZERO) || (x >? MaxUint256) then None
  else Some (snd (fold_left msb_step POWERS_OF_2 (x, 0))).

End BitWidth.

(** ** types.ts *)

Record TickState : Type := mkTick {
  tickIdx : Z;
  liquidityDelta : Z;
  upper : bool
}.

(** What a cell of [pool.ticks] holds at run time.  The array is declared
    [TickState[]], but [handleMint] pushes the bare tick number
    ([pool.ticks.push(bottomTick)]), so a cell is an object or a number. *)
Inductive TickSlot : Type :=
| TickObj (t : TickState)
| TickNum (n : Z).

Record PoolState : Type := mkPool {
  ticks : list TickSlot;
  currentTick : Z;
  currentLiquidity : Z;
  fee : Z
}.

(** ** Reading array cells and properties the JS way *)

(** [arr[i]] for a number [i]: [undefined] ([None]) outside [0 .. length-1],
    in particular at [-1]. *)
Definition at_index {A : Type} (arr : list A) (i : Z) : option A :=
  if i <? 0 then None else arr !! Z.to_nat i.

(** [slot.tickIdx]: a number has no such property, the read gives
    [undefined] ([None]). *)
Definition slot_tickIdx (s : TickSlot) : option Z :=
  match s with
  | TickObj t => Some (tickIdx t)
  | TickNum _ => None
  end.

(** [v === tick] for a number [tick]; [undefined === tick] is false. *)
Definition strict_eq (v : option Z) (tick : Z) : bool :=
  match v with
  | Some n => n =? tick
  | None => false
  end.

(** [tick < v]; a comparison with [undefined] (NaN) is false. *)
Definition js_lt (tick : Z) (v : option Z) : bool :=
  match v with
  | Some n => tick <? n
  | None => false
  end.

(** ** AlgebraEventPool.getTickIdx *)

Fixpoint getTickIdx_loop (fuel : nat) (tick : Z) (arr : list TickSlot)
    (left right : Z) : Outcome Z :=
  if left <=? right then
    match fuel with
    | O => OutOfFuel
    | S fuel' =>
        let mid := (left + right) `div` 2 in
        match at_index arr mid with
        | None => Throw TypeError
        | Some s =>
            if strict_eq (slot_tickIdx s) tick then Ret mid
            else if js_lt tick (slot_tickIdx s)
                 then getTickIdx_loop fuel' tick arr left (mid - 1)
                 else getTickIdx_loop fuel' tick arr (mid + 1) right
        end
    end
  else Ret (-1).

Definition getTickIdx (tick : Z) (arr : list TickSlot) : Outcome Z :=
  getTickIdx_loop (length arr) tick arr 0 (Z.of_nat (length arr) - 1).

(** The array is a well-typed [TickState[]], strictly ascending by
    [tickIdx]. *)
Fixpoint strictly_sorted_from (lo : option Z) (arr : list TickSlot) : bool :=
  match arr with
  | [] => true
  | TickNum _ :: _ => false
  | TickObj t :: rest =>
      match lo with
      | Some b => b <? tickIdx t
      | None => true
      end && strictly_sorted_from (Some (tickIdx t)) rest
  end.

Definition strictly_sorted (arr : list TickSlot) : bool :=
  strictly_sorted_from None arr.

(** ** The store of pool objects

    [handleSwap] ... [handleInitialize] assign to the fields of the pool
    object they receive and return that same object.  A pool object is
    therefore a cell of a store, named by a reference.  The [ticks] array
    and the tick objects in it are held inside the cell: nothing in the
    source hands one array or one tick object to two pools. *)

Definition PoolRef : Type := positive.

Definition M (A : Type) : Type :=
  gmap positive PoolState -> Outcome A * gmap positive PoolState.

Definition ret {A : Type} (a : A) : M A := fun h => (Ret a, h).

Definition throw {A : Type} (e : JsError) : M A := fun h => (Throw e, h).

Definition lift {A : Type} (o : Outcome A) : M A := fun h => (o, h).

Definition bind {A B : Type} (m : M A) (k : A -> M B) : M B :=
  fun h =>
    match m h with
    | (Ret a, h') => k a h'
    | (Throw e, h') => (Throw e, h')
    | (OutOfFuel, h') => (OutOfFuel, h')
    end.

#[global] Instance M_ret : MRet M := @ret.
#[global] Instance M_bind : MBind M := fun A B k m => bind m k.

(** [try { body } catch (e) { return onError }]: a throw is caught, the
    store keeps whatever the body had written before it threw. *)
Definition try_catch {A : Type} (body : M A) (onError : A) : M A :=
  fun h =>
    match body h with
    | (Throw _, h') => (Ret onError, h')
    | r => r
    end.

(** Reading the object behind a reference; a property read on something
    that is no object throws. *)
Definition read (pool : PoolRef) : M PoolState :=
  fun h =>
    match h !! pool with
    | Some p => (Ret p, h)
    | None => (Throw TypeError, h)
    end.

(** Assigning to fields of the object behind a reference, in place. *)
Definition update (pool : PoolRef) (f : PoolState -> PoolState) : M unit :=
  fun h =>
    match h !! pool with
    | Some p => (Ret tt, <[pool := f p]> h)
    | None => (Throw TypeError, h)
    end.

Definition set_ticks (v : list TickSlot) (p : PoolState) : PoolState :=
  mkPool v (currentTick p) (currentLiquidity p) (fee p).

Definition set_currentTick (v : Z) (p : PoolState) : PoolState :=
  mkPool (ticks p) v (currentLiquidity p) (fee p).

Definition set_currentLiquidity (v : Z) (p : PoolState) : PoolState :=
  mkPool (ticks p) (currentTick p) v (fee p).

Definition set_fee (v : Z) (p : PoolState) : PoolState :=
  mkPool (ticks p) (currentTick p) (currentLiquidity p) v.

(** [pool.ticks[i].upper]: throws on [undefined]; a number has no [upper],
    the read gives [undefined], which is falsy. *)
Definition read_upper (pool : PoolRef) (i : Z) : M bool :=
  p ← read pool;
  match at_index (ticks p) i with
  | None => throw TypeError
  | Some (TickNum _) => mret false
  | Some (TickObj t) => mret (upper t)
  end.

(** [pool.ticks[i].liquidityDelta += d] and [-= d], through [f].  On a
    number the read gives [undefined], and [undefined + bigint] throws. *)
Definition modify_liquidityDelta (pool : PoolRef) (i : Z) (f : Z -> Z)
    : M unit :=
  p ← read pool;
  match at_index (ticks p) i with
  | None => throw TypeError
  | Some (TickNum _) => throw TypeError
  | Some (TickObj t) =>
      update pool
        (fun q =>
           set_ticks
             (<[Z.to_nat i :=
                  TickObj (mkTick (tickIdx t) (f (liquidityDelta t)) (upper t))]>
                (ticks q)) q)
  end.

(** [pool.ticks[i].liquidityDelta == BigInt('0')] *)
Definition liquidityDelta_is_zero (pool : PoolRef) (i : Z) : M bool :=
  p ← read pool;
  match at_index (ticks p) i with
  | None => throw TypeError
  | Some (TickNum _) => mret false
  | Some (TickObj t) => mret (liquidityDelta t =? 0)
  end.

(** [Array.prototype.slice(start, end)]: a new array with the cells from
    [start] up to, not including, [end]; negative positions count from the
    end.  The receiver is not changed. *)
Definition slice_pos (len k : Z) : Z :=
  if k <? 0 then Z.max (len + k) 0 else Z.min k len.

Definition slice {A : Type} (arr : list A) (start stop : Z) : list A :=
  let len := Z.of_nat (length arr) in
  let s := slice_pos len start in
  let e := slice_pos len stop in
  take (Z.to_nat (e - s)) (drop (Z.to_nat s) arr).

(** [pool.ticks.slice(i, 1);] as a statement: the new array is dropped. *)
Definition slice_statement (pool : PoolRef) (i : Z) : M unit :=
  p ← read pool;
  _ ← mret (slice (ticks p) i 1);
  mret tt.

(** [Array.prototype.push] *)
Definition push {A : Type} (x : A) (arr : list A) : list A := arr ++ [x].

(** [function (a, b) { return a.tickIdx - b.tickIdx; }]; [None] is NaN,
    the difference with an [undefined] operand. *)
Definition compareFn (a b : TickSlot) : option Z :=
  match slot_tickIdx a, slot_tickIdx b with
  | Some x, Some y => Some (x - y)
  | _, _ => None
  end.

(** [Array.prototype.sort(compareFn)].  A NaN from the comparator counts
    as [+0]; the sort is stable.  With a comparator that is a consistent
    order on the cells (all objects, or all numbers) every stable sort
    gives this result; on arrays that mix objects and numbers the
    comparator is not consistent, the language leaves the order to the
    engine, and the result here is that of stable insertion. *)
Definition sort_compare (a b : TickSlot) : Z := default 0 (compareFn a b).

Fixpoint sort_insert (x : TickSlot) (arr : list TickSlot) : list TickSlot :=
  match arr with
  | [] => [x]
  | y :: rest =>
      if sort_compare x y <=? 0 then x :: y :: rest
      else y :: sort_insert x rest
  end.

Definition array_sort (arr : list TickSlot) : list TickSlot :=
  foldr sort_insert [] arr.

(** ** Decoded events

    [logDecoder] is [interface.parseLog] of the ABI library; the handlers
    read [event.name], fields of [event.args] and, in [handleSwap],
    [event.arg].  An event as the ABI library builds it has [name] and
    [args] and no property [arg]: [arg] is [None] for it. *)

Module Ev.

(** The fields of [event.args] that the handlers read; a handler reads
    the fields of its own event and no others. *)
Record Result : Type := mkArgs {
  tick : Z;
  liquidity : Z;
  Fee : Z;
  amount : Z;
  bottomTick : Z;
  topTick : Z
}.

Record LogDescription : Type := mkEvent {
  name : string;
  args : Result;
  arg : option Result
}.

End Ev.


(** ** AlgebraEventPool: the handlers and processLog *)

Section EventPool.

Context {Log : Type}.
Variable logDecoder : Log -> Outcome Ev.LogDescription.

Definition handleSwap (event : Ev.LogDescription) (pool : PoolRef) (log : Log)
    : M PoolRef :=
  match Ev.arg event with
  | None => throw TypeError
  | Some a =>
      _ ← update pool (set_currentTick (Ev.tick a));
      _ ← update pool (set_currentLiquidity (Ev.liquidity a));
      mret pool
  end.

Definition handleChangeFee (event : Ev.LogDescription) (pool : PoolRef)
    (log : Log) : M PoolRef :=
  _ ← update pool (set_fee (Ev.Fee (Ev.args event)));
  mret pool.

Definition handleBurn (event : Ev.LogDescription) (pool : PoolRef) (log : Log)
    : M PoolRef :=
  let burntLiquidity := Ev.amount (Ev.args event) in
  let bottomTick := Ev.bottomTick (Ev.args event) in
  let topTick := Ev.topTick (Ev.args event) in
  p ← read pool;
  bottomTickIdx ← lift (getTickIdx bottomTick (ticks p));
  topTickIdx ← lift (getTickIdx topTick (ticks p));
  u ← read_upper pool bottomTickIdx;
  _ ← (if u : bool
       then modify_liquidityDelta pool bottomTickIdx (fun d => d + burntLiquidity)
       else modify_liquidityDelta pool bottomTickIdx (fun d => d - burntLiquidity));
  u ← read_upper pool topTickIdx;
  _ ← (if u : bool
       then modify_liquidityDelta pool topTickIdx (fun d => d - burntLiquidity)
       else modify_liquidityDelta pool topTickIdx (fun d => d + burntLiquidity));
  z ← liquidityDelta_is_zero pool bottomTickIdx;
  _ ← (if z : bool then slice_statement pool bottomTickIdx else mret tt);
  z ← liquidityDelta_is_zero pool topTickIdx;
  _ ← (if z : bool then slice_statement pool topTickIdx else mret tt);
  p ← read pool;
  _ ← (if (currentTick p <? topTick) && (currentTick p >? bottomTick)
       then update pool
              (fun q => set_currentLiquidity (currentLiquidity q - burntLiquidity) q)
       else mret tt);
  mret pool.

Definition handleMint (event : Ev.LogDescription) (pool : PoolRef) (log : Log)
    : M PoolRef :=
  let addedLiquidity := Ev.amount (Ev.args event) in
  let bottomTick := Ev.bottomTick (Ev.args event) in
  let topTick := Ev.topTick (Ev.args event) in
  p ← read pool;
  bottomTickIdx ← lift (getTickIdx bottomTick (ticks p));
  topTickIdx ← lift (getTickIdx topTick (ticks p));
  _ ← (if bottomTickIdx =? -1
       then update pool (fun q => set_ticks (push (TickNum bottomTick) (ticks q)) q)
       else
         u ← read_upper pool bottomTickIdx;
         if u : bool
         then modify_liquidityDelta pool bottomTickIdx (fun d => d - addedLiquidity)
         else modify_liquidityDelta pool bottomTickIdx (fun d => d + addedLiquidity));
  _ ← (if topTickIdx =? -1
       then update pool (fun q => set_ticks (push (TickNum topTick) (ticks q)) q)
       else
         u ← read_upper pool topTickIdx;
         if u : bool
         then modify_liquidityDelta pool topTickIdx (fun d => d + addedLiquidity)
         else modify_liquidityDelta pool topTickIdx (fun d => d - addedLiquidity));
  _ ← update pool (fun q => set_ticks (array_sort (ticks q)) q);
  p ← read pool;
  _ ← (if (currentTick p <? topTick) && (currentTick p >? bottomTick)
       then update pool
              (fun q => set_currentLiquidity (currentLiquidity q + addedLiquidity) q)
       else mret tt);
  mret pool.

Definition handleInitialize (event : Ev.LogDescription) (pool : PoolRef)
    (log : Log) : M PoolRef :=
  _ ← update pool (set_fee 500);
  _ ← update pool (set_currentTick (Ev.tick (Ev.args event)));
  mret pool.

(** [this.handlers], by its own properties: the five names bound in the
    constructor.  [event.name in this.handlers] is true for these and for
    the names the object inherits ([onObjectPrototype]); for an inherited
    name the code calls the inherited method and returns what that
    returns, which is no pool state.  [processLog] below is the code for
    every name that is not inherited. *)
Definition handlers (name : string)
    : option (Ev.LogDescription -> PoolRef -> Log -> M PoolRef) :=
  if String.eqb name "Swap" then Some handleSwap
  else if String.eqb name "ChangeFee" then Some handleChangeFee
  else if String.eqb name "Burn" then Some handleBurn
  else if String.eqb name "Mint" then Some handleMint
  else if String.eqb name "Initialize" then Some handleInitialize
  else None.

(** [null] is [None]; the call of the logger in [catch] writes to no pool. *)
Definition processLog (state : PoolRef) (log : Log) : M (option PoolRef) :=
  try_catch
    (event ← lift (logDecoder log);
     match handlers (Ev.name event) with
     | Some handler => r ← handler event state log; mret (Some r)
     | None => mret (Some state)
     end)
    None.

End EventPool.

(** ** Algebra.getBuyPrice and Algebra.getSellPrice

    [./tickMath], [./sqrtPriceMath] and [./swapMath] are not part of the
    sources at hand: [TickMath.getSqrtRatioAtTick] and
    [SwapMath.computeSwapStep] are parameters, and so is the function
    object [SqrtPriceMath.getNextSqrtPriceFromInput], which the loops pass
    on uncalled as the step's target.  What kind of value a step returns
    as [stepAmountIn] and [stepAmountOut] is for [./swapMath] to say, so
    the two are of abstract types and the operators of the language on
    them are parameters as well.  Each loop is run with fuel and counts
    the loop bodies it enters.  Both functions are [async]: a throw is the
    rejection of the promise they return. *)

(** [amountOut].  It starts as [ZERO], and [ZERO] of internalConstants is
    [JSBI.BigInt(0)], an object of the JSBI library, no bigint.  [+=] on
    it goes through the conversion of the object to a primitive: that is
    a string, or the conversion throws; with a string on the left, [+]
    concatenates.  So [amountOut] is the object [ZERO] or a string. *)
Inductive Accumulated : Type :=
| AccZERO
| AccText (s : string).

Section Pricing.

Context {Price Fn StepIn StepOut : Type}.
Variable getSqrtRatioAtTick : Z -> Outcome Price.
Variable getNextSqrtPriceFromInput : Fn.
Variable computeSwapStep :
  Price -> Fn -> Z -> Z -> Z -> Outcome (Price * StepIn * StepOut).

(** [destAmount - stepAmountIn] for the bigint [destAmount]: a bigint, or
    a throw. *)
Variable minus : Z -> StepIn -> JsError + Z.

(** What [+] appends for [stepAmountOut] to a string on its left: the
    text of the value, or what its conversion throws. *)
Variable text_of : StepOut -> JsError + string.

(** The conversion of the JSBI object [ZERO] to a primitive: a throw (of
    its [valueOf]) or a string (of its [toString]), as the version of the
    library has it. *)
Variable zero_primitive : JsError + string.

(** The longest string the engine builds; a longer one is a RangeError. *)
Variable maxLength : nat.

(** [amountOut += stepAmountOut]: the left operand is converted first. *)
Definition accumulate (amountOut : Accumulated) (stepAmountOut : StepOut)
    : Outcome Accumulated :=
  match match amountOut with
        | AccZERO => zero_primitive
        | AccText s => inr s
        end with
  | inl e => Throw e
  | inr lprim =>
      match text_of stepAmountOut with
      | inl e => Throw e
      | inr rprim =>
          if (maxLength <? String.length (lprim +:+ rprim))%nat
          then Throw RangeError
          else Ret (AccText (lprim +:+ rprim))
      end
  end.

(** [amountIn / amountOut] for the bigint [amountIn].  The divisor is the
    object [ZERO] or a string: the conversion of the object throws, or
    gives a string; a string becomes a number, and a bigint divided by a
    number is a TypeError. *)
Definition divide (amountIn : Z) (amountOut : Accumulated) : Outcome Z :=
  match amountOut with
  | AccZERO =>
      match zero_primitive with
      | inl e => Throw e
      | inr _ => Throw TypeError
      end
  | AccText _ => Throw TypeError
  end.

(** [while (destAmount > 0) { ... }] of [getBuyPrice]; [turns] counts the
    bodies entered so far.  [currentTick], [currentLiquidity] and [fee]
    are the constants destructured from the pool state. *)
Fixpoint getBuyPrice_loop (fuel : nat) (currentTick currentLiquidity fee : Z)
    (destAmount : Z) (amountOut : Accumulated) (turns : nat)
    : Outcome Accumulated * nat :=
  if destAmount >? 0 then
    match fuel with
    | O => (OutOfFuel, turns)
    | S fuel' =>
        match getSqrtRatioAtTick currentTick with
        | Ret sqrtRatioCurrentX96 =>
            let sqrtRatioTargetX96 := getNextSqrtPriceFromInput in
            match computeSwapStep sqrtRatioCurrentX96 sqrtRatioTargetX96
                    currentLiquidity destAmount fee with
            | Ret (sqrtPrice, stepAmountIn, stepAmountOut) =>
                match minus destAmount stepAmountIn with
                | inr destAmount' =>
                    match accumulate amountOut stepAmountOut with
                    | Ret amountOut' =>
                        getBuyPrice_loop fuel' currentTick currentLiquidity
                          fee destAmount' amountOut' (S turns)
                    | Throw e => (Throw e, S turns)
                    | OutOfFuel => (OutOfFuel, S turns)
                    end
                | inl e => (Throw e, S turns)
                end
            | Throw e => (Throw e, S turns)
            | OutOfFuel => (OutOfFuel, S turns)
            end
        | Throw e => (Throw e, S turns)
        | OutOfFuel => (OutOfFuel, S turns)
        end
    end
  else (Ret amountOut, turns).

Definition getBuyPrice (fuel : nat) (poolState : PoolState) (destAmount : Z)
    : Outcome Z * nat :=
  let currentTick := currentTick poolState in
  let currentLiquidity := currentLiquidity poolState in
  let fee := fee poolState in
  let ticks := ticks poolState in
  let amountIn := destAmount in
  match getBuyPrice_loop fuel currentTick currentLiquidity fee
          destAmount AccZERO 0 with
  | (Ret amountOut, turns) => (divide amountIn amountOut, turns)
  | (Throw e, turns) => (Throw e, turns)
  | (OutOfFuel, turns) => (OutOfFuel, turns)
  end.

(** [while (srcAmount > 0) { ... }] of [getSellPrice].  The body passes
    [destAmount] to [computeSwapStep]; no [destAmount] is declared in
    [getSellPrice] or around it, so evaluating the arguments throws
    ReferenceError in the first body entered, after
    [getSqrtRatioAtTick] has returned. *)
Definition getSellPrice_loop (currentTick : Z) (srcAmount : Z)
    (amountOut : Accumulated) : Outcome Accumulated * nat :=
  if srcAmount >? 0 then
    match getSqrtRatioAtTick currentTick with
    | Ret sqrtRatioCurrentX96 => (Throw ReferenceError, 1%nat)
    | Throw e => (Throw e, 1%nat)
    | OutOfFuel => (OutOfFuel, 1%nat)
    end
  else (Ret amountOut, 0%nat).

Definition getSellPrice (poolState : PoolState) (srcAmount : Z)
    : Outcome Z * nat :=
  let currentTick := currentTick poolState in
  let amountIn := srcAmount in
  match getSellPrice_loop currentTick srcAmount AccZERO with
  | (Ret amountOut, turns) => (divide amountIn amountOut, turns)
  | (Throw e, turns) => (Throw e, turns)
  | (OutOfFuel, turns) => (OutOfFuel, turns)
  end.

End Pricing.

(** ** The properties of the liquidity book *)

(** The delta of a tick read as a lower-bound-style delta, the way Mint
    and Burn apply it: an [upper] tick stores the amount that leaves.  A
    bare number carries no delta. *)
Definition liquidityNet (s : TickSlot) : option Z :=
  match s with
  | TickObj t =>
      Some (if upper t then - liquidityDelta t else liquidityDelta t)
  | TickNum _ => None
  end.

(** Sum of [liquidityNet] over the ticks with index at most [tick]. *)
Definition activeLiquidity (tick : Z) (arr : list TickSlot) : Z :=
  foldr
    (fun s acc =>
       match s with
       | TickObj t =>
           if tickIdx t <=? tick then default 0 (liquidityNet s) + acc else acc
       | TickNum _ => acc
       end)
    0 arr.

(** No tick object of the array has a zero delta. *)
Definition no_zero_net (arr : list TickSlot) : bool :=
  forallb
    (fun s =>
       match s with
       | TickObj t => negb (liquidityDelta t =? 0)
       | TickNum _ => true
       end)
    arr.

(** A pool right after initialisation, as section 4.4 of the
    specification has it: no ticks, no liquidity. *)
Definition freshPool (tick fee : Z) : PoolState := mkPool [] tick 0 fee.

(** The pool states reached from a fresh pool by events that
    [processLog] applies.  The log is the decoded event itself, as the
    ABI library delivers it. *)
Inductive reachable : PoolState -> Prop :=
| reachable_fresh (tick fee : Z) : reachable (freshPool tick fee)
| reachable_event (p p' : PoolState) (event : Ev.LogDescription)
    (state state' : PoolRef) (h' : gmap positive PoolState) :
    reachable p ->
    Ev.arg event = None ->
    processLog Ret state event {[ state := p ]} = (Ret (Some state'), h') ->
    h' !! state' = Some p' ->
    reachable p'.

(** ** Events and states named in the statements below *)

(** A decoded event: [name], [args], and no [arg]. *)
Definition decoded (name : string) (args : Ev.Result) : Ev.LogDescription :=
  Ev.mkEvent name args None.

Definition Mint (bottomTick topTick amount : Z) : Ev.LogDescription :=
  decoded "Mint" (Ev.mkArgs 0 0 0 amount bottomTick topTick).

Definition Burn (bottomTick topTick amount : Z) : Ev.LogDescription :=
  decoded "Burn" (Ev.mkArgs 0 0 0 amount bottomTick topTick).

Definition Swap (tick liquidity : Z) : Ev.LogDescription :=
  decoded "Swap" (Ev.mkArgs tick liquidity 0 0 0 0).

Definition ChangeFee (Fee : Z) : Ev.LogDescription :=
  decoded "ChangeFee" (Ev.mkArgs 0 0 Fee 0 0 0).

Definition Initialize (tick Fee : Z) : Ev.LogDescription :=
  decoded "Initialize" (Ev.mkArgs tick 0 Fee 0 0 0).

(** One position [-100, 100) of 1000, with the price inside it. *)
Definition onePosition : PoolState :=
  mkPool [TickObj (mkTick (-100) 1000 false); TickObj (mkTick 100 1000 true)]
    0 1000 500.

(** The same book with the price at the lower bound of the position. *)
Definition atLowerBound : PoolState :=
  mkPool [TickObj (mkTick (-100) 1000 false); TickObj (mkTick 100 1000 true)]
    (-100) 1000 500.

(** A book that holds the lower tick of a position only. *)
Definition lowerTickOnly : PoolState :=
  mkPool [TickObj (mkTick (-100) 1000 false)] 0 1000 500.

Definition threeTicks : list TickSlot :=
  [TickObj (mkTick 1 10 false); TickObj (mkTick 5 20 false);
   TickObj (mkTick 7 30 true)].

(** The store with one pool object, behind reference 1. *)
Definition theRef : PoolRef := 1%positive.

Definition single (p : PoolState) : gmap positive PoolState :=
  {[ theRef := p ]}.

(** A book with liquidity 10 and no ticks. *)
Definition noTicks : PoolState := mkPool [] 0 10 500.

(** Callees for runs of the pricing loops: steps that consume one unit
    and yield one, both bigints. *)
Definition sampleStep (sqrtRatioCurrentX96 sqrtRatioTargetX96 : unit)
    (liquidity amountRemaining feePips : Z) : Outcome (unit * Z * Z) :=
  Ret (tt, 1, 1).

Definition sampleMinus (a b : Z) : JsError + Z := inr (a - b).

Definition sampleText (stepAmountOut : Z) : JsError + string := inr "1".

(** ** Auxiliary notions of the statements *)

(** The thresholds of [POWERS_OF_2] halve from one turn to the next and
    end at 1. *)
Fixpoint halving (bits : Z) (pows : list Z) : Prop :=
  match pows with
  | [] => bits = 1
  | q :: rest => bits = 2 * q /\ 0 < q /\ halving q rest
  end.

(** The tick object with [L] added to its delta read as a lower-bound-style
    delta; this is what Mint does at [bottomTick] with the amount and at
    [topTick] with its opposite, and Burn the other way round. *)
Definition add_net (L : Z) (t : TickState) : TickState :=
  mkTick (tickIdx t)
    (if upper t then liquidityDelta t - L else liquidityDelta t + L)
    (upper t).

(** The cell is a bare number. *)
Definition is_number (s : TickSlot) : Prop := exists n, s = TickNum n.

(** ** Notions of the further statements *)

(** [Q] relates the object behind [pool] before and after; every other
    object is as it was. *)
Definition on_pool (pool : PoolRef) (Q : PoolState -> PoolState -> Prop)
    (r : PoolRef) (p p' : PoolState) : Prop :=
  if decide (r = pool) then Q p p' else p = p'.

(** The two stores hold objects behind the same references, related by
    [R]. *)
Definition store_rel (R : PoolRef -> PoolState -> PoolState -> Prop)
    (h h' : gmap positive PoolState) : Prop :=
  forall r,
    match h !! r, h' !! r with
    | Some p, Some p' => R r p p'
    | None, None => True
    | _, _ => False
    end.

(** The computation returns or throws, and what it writes is written to
    the object behind [pool], within [Q]. *)
Definition behaves (pool : PoolRef) (Q : PoolState -> PoolState -> Prop)
    {A : Type} (m : M A) : Prop :=
  forall h, fst (m h) <> OutOfFuel /\ store_rel (on_pool pool Q) h (snd (m h)).

(** What identifies a cell of [ticks] apart from its delta. *)
Definition slot_key (s : TickSlot) : (Z * bool) + Z :=
  match s with
  | TickObj t => inl (tickIdx t, upper t)
  | TickNum n => inr n
  end.

(** [currentLiquidity] is the sum of the net deltas at or below
    [currentTick]. *)
Definition liquidity_sum_holds (p : PoolState) : Prop :=
  currentLiquidity p = activeLiquidity (currentTick p) (ticks p).


(** Burn's writes: the tick, the fee and the keys of the cells stay. *)
Definition same_book_shape (p p' : PoolState) : Prop :=
  currentTick p' = currentTick p /\
  fee p' = fee p /\
  slot_key <$> ticks p' = slot_key <$> ticks p.

(** Mint's writes: the tick and the fee stay; the cells keep their keys,
    up to order, and the cells that come on top are bare numbers. *)
Definition book_extended (p p' : PoolState) : Prop :=
  currentTick p' = currentTick p /\
  fee p' = fee p /\
  exists extra : list Z,
    slot_key <$> ticks p' ≡ₚ (slot_key <$> ticks p) ++ (inr <$> extra).

(** ** Algebra: pool identifiers, price queries and the pair registry

    [wrapETH], [String.prototype.toLowerCase], the factory contract and
    [NULL_ADDRESS] come from outside the sources at hand and are
    parameters.  Strings are compared the way [<] and [>] compare them,
    by code units from the left. *)

Module Tk.

Record Token : Type := mkToken {
  address : string;
  decimals : Z;
  symbol : option string
}.

End Tk.

(** [AlgebraPoolParam] of types.ts. *)
Record AlgebraPoolParam : Type := mkPoolParam {
  pp_token0 : string;
  pp_token1 : string;
  pp_ticks : list TickSlot;
  pp_currentTick : Z;
  pp_currentLiquidity : Z;
  pp_fee : Z
}.

(** The pair objects that [findPair] builds: [exchange] is present when
    the factory knows the pair. *)
Record PairEntry : Type := mkPair {
  pair_token0 : Tk.Token;
  pair_token1 : Tk.Token;
  pair_exchange : option string
}.

(** [Array.prototype.sort(cmp)] on strings, by stable insertion; on the
    two distinct strings it is used with, every sort gives this result. *)
Fixpoint sort_insert_by {A : Type} (cmp : A -> A -> Z) (x : A) (arr : list A)
    : list A :=
  match arr with
  | [] => [x]
  | y :: rest =>
      if cmp x y <=? 0 then x :: y :: rest
      else y :: sort_insert_by cmp x rest
  end.

Definition sort_by {A : Type} (cmp : A -> A -> Z) (arr : list A) : list A :=
  foldr (sort_insert_by cmp) [] arr.

(** [Array.prototype.join(sep)] *)
Definition join (sep : string) (arr : list string) : string :=
  match arr with
  | [] => EmptyString
  | x :: rest => fold_left (fun acc y => acc +:+ sep +:+ y) rest x
  end.

Section Algebra.

Variable toLowerCase : string -> string.
Variable wrapETH : Tk.Token -> Z -> Tk.Token.
Variable network : Z.
Variable dexKey : string.

(** [(a, b) => (a > b ? 1 : -1)] *)
Definition byAddress (a b : string) : Z := if String.ltb b a then 1 else -1.

(** [`${this.dexKey}_${tokenAddress}`] for the two wrapped tokens. *)
Definition poolIdentifierOf (from to : Tk.Token) : string :=
  let tokenAddress :=
    join "_"
      (sort_by byAddress
         [toLowerCase (Tk.address from); toLowerCase (Tk.address to)]) in
  dexKey +:+ "_" +:+ tokenAddress.

(** [side] and [blockNumber] are not read. *)
Definition getPoolIdentifiers (srcToken destToken : Tk.Token) : list string :=
  let from := wrapETH srcToken network in
  let to := wrapETH destToken network in
  if String.eqb (toLowerCase (Tk.address from)) (toLowerCase (Tk.address to))
  then []
  else [poolIdentifierOf from to].

(** [async getPairState(from, to, blockNumber) {}]: the body is empty,
    the promise resolves to [undefined]. *)
Definition getPairState (from to : Tk.Token) (blockNumber : Z)
    : option AlgebraPoolParam := None.

(** [getPricesVolume].  [Prices] is the type of the answer that is not
    [null]; [limitPools] is [None] when the argument is left out.  After
    [if (!pairParam) return null] the next statement calls
    [getBigIntPow], which the file neither imports nor declares: reading
    the name throws ReferenceError before anything else is evaluated.
    The [catch] logs and returns [null]. *)
Definition getPricesVolume {Prices : Type} (srcToken destToken : Tk.Token)
    (amounts : list Z) (side : bool) (blockNumber : Z)
    (limitPools : option (list string)) : Outcome (option Prices) :=
  let body : Outcome (option Prices) :=
    let from := wrapETH srcToken network in
    let to := wrapETH destToken network in
    if String.eqb (toLowerCase (Tk.address from)) (toLowerCase (Tk.address to))
    then Ret None
    else
      let poolIdentifier := poolIdentifierOf from to in
      if match limitPools with
         | Some pools =>
             forallb (fun p => negb (String.eqb p poolIdentifier)) pools
         | None => false
         end
      then Ret None
      else
        match getPairState from to blockNumber with
        | None => Ret None
        | Some pairParam => Throw ReferenceError
        end in
  match body with
  | Throw _ => Ret None
  | r => r
  end.

Variable getPair : string -> string -> Outcome string.
Variable NULL_ADDRESS : string.

(** [findPair] over the registry [this.pairs]; the call of the empty
    [addPoolIfNeccesary] does nothing.  A key holds a [-], so it names no
    property that a plain object inherits. *)
Definition findPair (pairs : gmap string PairEntry) (from to : Tk.Token)
    : Outcome (option PairEntry) * gmap string PairEntry :=
  if String.eqb (toLowerCase (Tk.address from)) (toLowerCase (Tk.address to))
  then (Ret None, pairs)
  else
    let '(token0, token1) :=
      if String.ltb (toLowerCase (Tk.address from))
                    (toLowerCase (Tk.address to))
      then (from, to) else (to, from) in
    let key :=
      toLowerCase (Tk.address token0) +:+ "-" +:+
      toLowerCase (Tk.address token1) in
    match pairs !! key with
    | Some entry => (Ret (Some entry), pairs)
    | None =>
        match getPair (Tk.address token0) (Tk.address token1) with
        | Ret exchange =>
            let entry :=
              if String.eqb exchange NULL_ADDRESS
              then mkPair token0 token1 None
              else mkPair token0 token1 (Some exchange) in
            (Ret (Some entry), <[key := entry]> pairs)
        | Throw e => (Throw e, pairs)
        | OutOfFuel => (OutOfFuel, pairs)
        end
    end.

End Algebra.

(** ** AlgebraEventPool.generateState

    The request to the subgraph is a parameter and answers with the
    [data] of its response; [data], [data.pools] and [data.ticks] may
    each be missing. *)

(** What [generateState] throws: an error of the language, or
    [new Error(message)]. *)
Inductive Raised : Type :=
| JsRaised (e : JsError)
| ErrorRaised (message : string).

Inductive Settled (A : Type) : Type :=
| Resolved (a : A)
| Rejected (r : Raised).

Arguments Resolved {A} a.
Arguments Rejected {A} r.

(** The fields that the function reads off a tick and off a pool of the
    response. *)
Record RawTick : Type := mkRawTick {
  raw_tickIdx : Z;
  raw_liquidityNet : Z;
  raw_upper : bool
}.

Record RawPool : Type := mkRawPool {
  raw_tick : Z;
  raw_liquidity : Z;
  raw_fee : Z
}.

Record SubgraphData : Type := mkData {
  data_ticks : option (list RawTick);
  data_pools : option (list RawPool)
}.

(** The pool object that the function builds; [gen_ticks] is the
    variable [ticks] as it is at that point, [None] when it is
    [undefined]. *)
Record GeneratedState : Type := mkGenerated {
  gen_ticks : option (list TickSlot);
  gen_currentTick : Z;
  gen_currentLiquidity : Z;
  gen_fee : Z
}.

(** The [for] loop over [data.ticks] from [ticks] on.  On [undefined]
    the call [ticks.push(...)] reads [push] off it and throws
    TypeError. *)
Fixpoint fill_ticks (ticks : option (list TickSlot)) (raw : list RawTick)
    : Settled (option (list TickSlot)) :=
  match raw with
  | [] => Resolved ticks
  | x :: rest =>
      match ticks with
      | None => Rejected (JsRaised TypeError)
      | Some arr =>
          fill_ticks
            (Some
               (push
                  (TickObj
                     (mkTick (raw_tickIdx x) (raw_liquidityNet x) (raw_upper x)))
                  arr))
            rest
      end
  end.

Section GenerateState.

Variable post : string -> Z -> Settled (option SubgraphData).

(** [undefined] is [Resolved None]; an empty or missing [subgraphURL] is
    falsy.  [let ticks: TickState[];] declares and does not initialise:
    the loop starts from [undefined]. *)
Definition generateState (subgraphURL : option string) (blockNumber : Z)
    : Settled (option GeneratedState) :=
  match subgraphURL with
  | None | Some EmptyString => Resolved None
  | Some url =>
      match post url blockNumber with
      | Rejected r => Rejected r
      | Resolved data =>
          match data with
          | Some (mkData (Some rawTicks) (Some rawPools)) =>
              match fill_ticks None rawTicks with
              | Rejected r => Rejected r
              | Resolved ticks =>
                  match rawPools with
                  | [] => Rejected (JsRaised TypeError)
                  | pool0 :: _ =>
                      Resolved
                        (Some
                           (mkGenerated ticks (raw_tick pool0)
                              (raw_liquidity pool0) (raw_fee pool0)))
                  end
              end
          | _ =>
              Rejected
                (ErrorRaised "Couldn't fetch the pools from the subgraph")
          end
      end
  end.

End GenerateState.





(** * Theorems *)

(** ** mostSignificantBit *)

Section BitWidthFacts.

Import BitWidth.

Lemma MaxUint256_eq : MaxUint256 = 2 ^ 256 - 1.
Proof. reflexivity. Qed.

Lemma msb_step_shift (x0 x msb power : Z) :
  0 <= msb -> 0 < power -> 1 <= x < 2 ^ (2 * power) ->
  Z.shiftr x0 msb = x ->
  exists x' msb',
    msb_step (x, msb) (power, TWO ^ power) = (x', msb') /\
    0 <= msb' /\ 1 <= x' < 2 ^ power /\ Z.shiftr x0 msb' = x'.
Proof.
  intros Hm Hp [Hlo Hhi] Hsh. unfold msb_step, TWO.
  assert (Hpos : 0 < 2 ^ power) by (apply Z.pow_pos_nonneg; lia).
  destruct (x >=? 2 ^ power) eqn:Hge.
  - apply Z.geb_le in Hge.
    exists (Z.shiftr x power), (msb + power).
    split; [reflexivity|]. split; [lia|].
    rewrite <- Hsh at 3. rewrite Z.shiftr_shiftr by lia.
    split; [|reflexivity].
    rewrite Z.shiftr_div_pow2 by lia. split.
    + apply Z.div_le_lower_bound; lia.
    + apply Z.div_lt_upper_bound; [lia|].
      rewrite <- Z.pow_add_r by lia.
      replace (power + power) with (2 * power) by lia. exact Hhi.
  - exists x, msb. split; [reflexivity|].
    rewrite Z.geb_leb in Hge. apply Z.leb_gt in Hge. lia.
Qed.

Lemma msb_fold_shift (x0 : Z) (pows : list Z) :
  forall bits x msb,
    halving bits pows -> 0 <= msb -> 1 <= x < 2 ^ bits ->
    Z.shiftr x0 msb = x ->
    exists msb',
      fold_left msb_step (List.map (fun pow : Z => (pow, TWO ^ pow)) pows)
        (x, msb) = (1, msb') /\
      0 <= msb' /\ Z.shiftr x0 msb' = 1.
Proof.
  induction pows as [|q rest IH]; intros bits x msb Hh Hm Hx Hsh;
    cbn [List.map fold_left halving] in *.
  - subst bits. exists msb. change (2 ^ 1) with 2 in Hx.
    assert (Hx1 : x = 1) by lia. rewrite Hx1 in *. auto.
  - destruct Hh as (-> & Hq & Hrest).
    destruct (msb_step_shift x0 x msb q Hm Hq Hx Hsh)
      as (x' & msb' & -> & Hm' & Hx' & Hsh').
    exact (IH q x' msb' Hrest Hm' Hx' Hsh').
Qed.

Lemma shiftr_one_bounds (x m : Z) :
  0 <= m -> Z.shiftr x m = 1 -> 2 ^ m <= x < 2 ^ (m + 1).
Proof.
  intros Hm Hsh. rewrite Z.shiftr_div_pow2 in Hsh by lia.
  assert (Hpos : 0 < 2 ^ m) by (apply Z.pow_pos_nonneg; lia).
  rewrite Z.pow_add_r by lia. change (2 ^ 1) with 2.
  pose proof (Z.div_mod x (2 ^ m) ltac:(lia)) as Hdm.
  pose proof (Z.mod_pos_bound x (2 ^ m) Hpos) as Hmod.
  rewrite Hsh in Hdm. lia.
Qed.

Lemma mostSignificantBit_in_range (x : Z) :
  1 <= x <= MaxUint256 ->
  exists m, mostSignificantBit x = Some m /\ 0 <= m /\ 2 ^ m <= x < 2 ^ (m + 1).
Proof.
  intros [Hlo Hhi]. unfold mostSignificantBit, ZERO.
  destruct (x <=? 0) eqn:H0; [apply Z.leb_le in H0; lia|].
  destruct (x >? MaxUint256) eqn:H1.
  { rewrite Z.gtb_ltb in H1. apply Z.ltb_lt in H1. lia. }
  simpl orb. cbv iota.
  destruct (msb_fold_shift x [128; 64; 32; 16; 8; 4; 2; 1] 256 x 0)
    as (m & Hfold & Hm & Hsh).
  - simpl. repeat split; lia.
  - lia.
  - rewrite MaxUint256_eq in Hhi. lia.
  - apply Z.shiftr_0_r.
  - exists m. unfold POWERS_OF_2. rewrite Hfold. simpl snd.
    split; [reflexivity|]. split; [exact Hm|].
    apply shiftr_one_bounds; assumption.
Qed.

Lemma mostSignificantBit_out_of_range (x : Z) :
  x <= 0 \/ x > MaxUint256 -> mostSignificantBit x = None.
Proof.
  intros H. unfold mostSignificantBit, ZERO.
  destruct (x <=? 0) eqn:H0; [reflexivity|].
  destruct (x >? MaxUint256) eqn:H1; [reflexivity|].
  apply Z.leb_gt in H0. rewrite Z.gtb_ltb in H1. apply Z.ltb_ge in H1. lia.
Qed.

End BitWidthFacts.

(** C8. For 1 <= x <= 2^256 - 1, [mostSignificantBit x] is the index [m]
    of the highest set bit of [x]: 2^m <= x < 2^(m+1), bit [m] is set and
    no bit above it is; at 1, 2 and 2^128 it is 0, 1 and 128.  For
    x <= 0 or x > 2^256 - 1 the result is [null], no number. *)
Theorem mostSignificantBit_correct (x : Z) :
  (1 <= x <= 2 ^ 256 - 1 ->
   exists m,
     BitWidth.mostSignificantBit x = Some m /\
     0 <= m /\ 2 ^ m <= x < 2 ^ (m + 1) /\
     m = Z.log2 x /\
     Z.testbit x m = true /\
     (forall k, m < k -> Z.testbit x k = false)) /\
  (x <= 0 \/ x > 2 ^ 256 - 1 -> BitWidth.mostSignificantBit x = None) /\
  BitWidth.mostSignificantBit 1 = Some 0 /\
  BitWidth.mostSignificantBit 2 = Some 1 /\
  BitWidth.mostSignificantBit (2 ^ 128) = Some 128.
Proof.
  rewrite <- MaxUint256_eq. split; [|split; [|repeat split]].
  - intros Hx.
    destruct (mostSignificantBit_in_range x Hx) as (m & Heq & Hm & Hb).
    assert (Hlog : m = Z.log2 x) by (symmetry; apply Z.log2_unique; assumption).
    exists m. repeat split; try tauto.
    + subst m. apply Z.bit_log2. lia.
    + intros k Hk. apply Z.bits_above_log2; lia.
  - apply mostSignificantBit_out_of_range.
Qed.

Lemma mostSignificantBit_correct_witness :
  exists m,
    BitWidth.mostSignificantBit 1000 = Some m /\
    0 <= m /\ 2 ^ m <= 1000 < 2 ^ (m + 1) /\
    m = Z.log2 1000 /\
    Z.testbit 1000 m = true /\
    (forall k, m < k -> Z.testbit 1000 k = false).
Proof.
  apply (proj1 (mostSignificantBit_correct 1000)).
  split; [lia|]. vm_compute. discriminate.
Defined.

(** ** getTickIdx *)

Section TickSearch.

Lemma at_index_Some {A : Type} (arr : list A) (i : Z) (x : A) :
  at_index arr i = Some x <-> 0 <= i /\ arr !! Z.to_nat i = Some x.
Proof.
  unfold at_index. destruct (i <? 0) eqn:Hi.
  - apply Z.ltb_lt in Hi. split; [discriminate | lia].
  - apply Z.ltb_ge in Hi. tauto.
Qed.

Lemma at_index_in_range {A : Type} (arr : list A) (i : Z) :
  0 <= i < Z.of_nat (length arr) -> exists x, at_index arr i = Some x.
Proof.
  intros Hi. destruct (lookup_lt_is_Some_2 arr (Z.to_nat i)) as [x Hx]; [lia|].
  exists x. apply at_index_Some. split; [lia | exact Hx].
Qed.

(** The search never runs out of fuel and never throws, whatever the
    array holds; what it returns is [-1] or the position of an object
    with the tick looked for. *)
Lemma getTickIdx_loop_returns (tick : Z) (arr : list TickSlot) :
  forall (fuel : nat) (left right : Z),
    0 <= left -> right < Z.of_nat (length arr) ->
    right - left + 1 <= Z.of_nat fuel ->
    exists i,
      getTickIdx_loop fuel tick arr left right = Ret i /\
      (i = -1 \/
       exists t, at_index arr i = Some (TickObj t) /\ tickIdx t = tick).
Proof.
  induction fuel as [|fuel IH]; intros left right Hl Hr Hf; simpl.
  - destruct (left <=? right) eqn:Hlr; [apply Z.leb_le in Hlr; lia|].
    exists (-1). auto.
  - destruct (left <=? right) eqn:Hlr; [|exists (-1); auto].
    apply Z.leb_le in Hlr.
    assert (Hmid : left <= (left + right) `div` 2 <= right).
    { split; [apply Z.div_le_lower_bound | apply Z.div_le_upper_bound]; lia. }
    destruct (at_index_in_range arr ((left + right) `div` 2)) as [s Hs]; [lia|].
    rewrite Hs.
    destruct (strict_eq (slot_tickIdx s) tick) eqn:Heq.
    + exists ((left + right) `div` 2). split; [reflexivity|]. right.
      destruct s as [t|n]; simpl in Heq; [|discriminate].
      exists t. apply Z.eqb_eq in Heq. auto.
    + destruct (js_lt tick (slot_tickIdx s)); apply IH; lia.
Qed.

Lemma getTickIdx_returns (tick : Z) (arr : list TickSlot) :
  exists i,
    getTickIdx tick arr = Ret i /\
    (i = -1 \/ exists t, at_index arr i = Some (TickObj t) /\ tickIdx t = tick).
Proof. unfold getTickIdx. apply getTickIdx_loop_returns; lia. Qed.

(** What [strictly_sorted] says, by positions. *)
Lemma strictly_sorted_from_spec (arr : list TickSlot) :
  forall lo,
    strictly_sorted_from lo arr = true ->
    (forall (i : nat) s, arr !! i = Some s ->
       exists t, s = TickObj t /\ forall b, lo = Some b -> b < tickIdx t) /\
    (forall (i j : nat) ti tj,
       (i < j)%nat -> arr !! i = Some (TickObj ti) ->
       arr !! j = Some (TickObj tj) -> tickIdx ti < tickIdx tj).
Proof.
  induction arr as [|s rest IH]; intros lo Hs; simpl in Hs.
  - split; intros; discriminate.
  - destruct s as [t|n]; [|discriminate].
    apply andb_true_iff in Hs as [Hlo Hrest].
    destruct (IH _ Hrest) as [Hobj Hmono].
    assert (Hfirst : forall b, lo = Some b -> b < tickIdx t).
    { intros b ->. apply Z.ltb_lt. exact Hlo. }
    split.
    + intros [|i] s Hi; simpl in Hi.
      * injection Hi as <-. eauto.
      * destruct (Hobj i s Hi) as (t' & -> & Hb).
        exists t'. split; [reflexivity|].
        intros b Hb'. specialize (Hfirst b Hb'). specialize (Hb _ eq_refl). lia.
    + intros [|i] [|j] ti tj Hij Hi Hj; simpl in Hi, Hj; try lia.
      * injection Hi as <-.
        destruct (Hobj j _ Hj) as (t' & Ht' & Hb). injection Ht' as <-.
        apply Hb. reflexivity.
      * apply (Hmono i j); [lia | assumption | assumption].
Qed.

Lemma strictly_sorted_objects (arr : list TickSlot) (i : nat) s :
  strictly_sorted arr = true -> arr !! i = Some s -> exists t, s = TickObj t.
Proof.
  intros Hs Hi. destruct (strictly_sorted_from_spec arr None Hs) as [Hobj _].
  destruct (Hobj i s Hi) as (t & -> & _). eauto.
Qed.

Lemma strictly_sorted_mono (arr : list TickSlot) (i j : nat) ti tj :
  strictly_sorted arr = true -> (i < j)%nat ->
  arr !! i = Some (TickObj ti) -> arr !! j = Some (TickObj tj) ->
  tickIdx ti < tickIdx tj.
Proof.
  intros Hs. destruct (strictly_sorted_from_spec arr None Hs) as [_ Hmono].
  apply Hmono.
Qed.

Lemma strictly_sorted_unique (arr : list TickSlot) (i j : nat) ti tj :
  strictly_sorted arr = true ->
  arr !! i = Some (TickObj ti) -> arr !! j = Some (TickObj tj) ->
  tickIdx ti = tickIdx tj -> i = j.
Proof.
  intros Hs Hi Hj Heq.
  destruct (Nat.lt_trichotomy i j) as [Hlt|[->|Hgt]]; [|reflexivity|].
  - pose proof (strictly_sorted_mono arr i j ti tj Hs Hlt Hi Hj). lia.
  - pose proof (strictly_sorted_mono arr j i tj ti Hs Hgt Hj Hi). lia.
Qed.

Lemma getTickIdx_loop_found (tick : Z) (arr : list TickSlot) (k : nat) t :
  strictly_sorted arr = true ->
  arr !! k = Some (TickObj t) -> tickIdx t = tick ->
  forall (fuel : nat) (left right : Z),
    0 <= left -> right < Z.of_nat (length arr) ->
    right - left + 1 <= Z.of_nat fuel ->
    left <= Z.of_nat k <= right ->
    getTickIdx_loop fuel tick arr left right = Ret (Z.of_nat k).
Proof.
  intros Hs Hk Ht.
  induction fuel as [|fuel IH]; intros left right Hl Hr Hf Hin; simpl.
  - lia.
  - destruct (left <=? right) eqn:Hlr; [|apply Z.leb_gt in Hlr; lia].
    set (mid := (left + right) `div` 2).
    assert (Hmid : left <= mid <= right).
    { subst mid.
      split; [apply Z.div_le_lower_bound | apply Z.div_le_upper_bound]; lia. }
    destruct (at_index_in_range arr mid) as [s Hsm]; [lia|].
    rewrite Hsm. apply at_index_Some in Hsm as [_ Hsm].
    destruct (strictly_sorted_objects arr _ s Hs Hsm) as [tm ->]. simpl.
    destruct (tickIdx tm =? tick) eqn:Heq.
    + apply Z.eqb_eq in Heq.
      assert (Z.to_nat mid = k).
      { apply (strictly_sorted_unique arr _ _ tm t Hs Hsm Hk). lia. }
      f_equal. lia.
    + apply Z.eqb_neq in Heq.
      destruct (Z.lt_trichotomy (Z.of_nat k) mid) as [Hlt|[Heqk|Hgt]].
      * pose proof (strictly_sorted_mono arr k (Z.to_nat mid) t tm Hs
                      ltac:(lia) Hk Hsm) as Hm.
        assert (Hb : (tick <? tickIdx tm) = true) by (apply Z.ltb_lt; lia).
        rewrite Hb. apply IH; lia.
      * exfalso. replace (Z.to_nat mid) with k in Hsm by lia.
        rewrite Hk in Hsm. injection Hsm as <-. lia.
      * pose proof (strictly_sorted_mono arr (Z.to_nat mid) k tm t Hs
                      ltac:(lia) Hsm Hk) as Hm.
        assert (Hb : (tick <? tickIdx tm) = false) by (apply Z.ltb_ge; lia).
        rewrite Hb. apply IH; lia.
Qed.

End TickSearch.

(** C10. On an array strictly ascending by [tickIdx], [getTickIdx]
    returns the position of the entry whose [tickIdx] is the tick looked
    for, which is the only such position, and [-1] when no entry has
    that index, as on the empty array. *)
Theorem getTickIdx_sorted_correct (arr : list TickSlot) (tick : Z) :
  strictly_sorted arr = true ->
  (forall (i : nat) t,
     arr !! i = Some (TickObj t) -> tickIdx t = tick ->
     getTickIdx tick arr = Ret (Z.of_nat i) /\
     forall (j : nat) t',
       arr !! j = Some (TickObj t') -> tickIdx t' = tick -> j = i) /\
  ((forall (i : nat) t, arr !! i = Some (TickObj t) -> tickIdx t <> tick) ->
   getTickIdx tick arr = Ret (-1)) /\
  getTickIdx tick [] = Ret (-1).
Proof.
  intros Hs. split; [|split; [|reflexivity]].
  - intros i t Hi Ht. split.
    + unfold getTickIdx.
      pose proof (lookup_lt_Some _ _ _ Hi) as Hlen.
      apply (getTickIdx_loop_found tick arr i t Hs Hi Ht); lia.
    + intros j t' Hj Ht'.
      apply (strictly_sorted_unique arr j i t' t Hs Hj Hi). lia.
  - intros Hnone.
    destruct (getTickIdx_returns tick arr) as (i & Hret & [->|(t & Hat & Ht)]).
    + exact Hret.
    + apply at_index_Some in Hat as [_ Hat].
      exfalso. exact (Hnone _ _ Hat Ht).
Qed.

Lemma getTickIdx_sorted_correct_witness :
  getTickIdx 5 threeTicks = Ret 1 /\ getTickIdx 6 threeTicks = Ret (-1).
Proof.
  split.
  - exact (proj1 (proj1 (getTickIdx_sorted_correct threeTicks 5 eq_refl)
                    1%nat (mkTick 5 20 false) eq_refl eq_refl)).
  - apply (proj1 (proj2 (getTickIdx_sorted_correct threeTicks 6 eq_refl))).
    intros [|[|[|i]]] t Hi; simpl in Hi; try discriminate;
      injection Hi as <-; simpl; lia.
Defined.

(** ** The handlers *)

Section HandlerFacts.

Context {Log : Type}.





(** [handleSwap] reads [event.arg]; on a decoded event that is
    [undefined] and the handler throws before it assigns anything. *)
Lemma handleSwap_decoded_throws (event : Ev.LogDescription) (pool : PoolRef)
    (log : Log) h :
  Ev.arg event = None -> handleSwap event pool log h = (Throw TypeError, h).
Proof. intros H. unfold handleSwap. rewrite H. reflexivity. Qed.

Variable logDecoder : Log -> Outcome Ev.LogDescription.

(** [processLog] answers [null] when the decoder throws; nothing was
    written then. *)
Lemma processLog_decode_failure (state : PoolRef) (log : Log) e h :
  logDecoder log = Throw e ->
  processLog logDecoder state log h = (Ret None, h).
Proof.
  intros H. unfold processLog, try_catch, mbind, M_bind, bind, lift.
  rewrite H. reflexivity.
Qed.

(** [processLog] answers [null] when the handler throws; the store is
    the one the handler left behind. *)
Lemma processLog_handler_failure (state : PoolRef) (log : Log) event handler
    e h h' :
  logDecoder log = Ret event ->
  handlers (Ev.name event) = Some handler ->
  handler event state log h = (Throw e, h') ->
  processLog logDecoder state log h = (Ret None, h').
Proof.
  intros Hd Hh Hrun. unfold processLog, try_catch, mbind, M_bind, bind, lift.
  rewrite Hd, Hh, Hrun. reflexivity.
Qed.

(** An event with no handler leaves the state as it is. *)
Lemma processLog_other_event (state : PoolRef) (log : Log) event h :
  logDecoder log = Ret event ->
  handlers (Log:=Log) (Ev.name event) = None ->
  processLog logDecoder state log h = (Ret (Some state), h).
Proof.
  intros Hd Hh. unfold processLog, try_catch, mbind, M_bind, bind, lift.
  rewrite Hd, Hh. reflexivity.
Qed.

End HandlerFacts.


(** ** Mint and Burn on ticks that the book holds *)

Section FoundTicks.

Context {Log : Type}.

Lemma bind_eval {A B : Type} (m : M A) (k : A -> M B) h a h1 :
  m h = (Ret a, h1) -> (m ≫= k) h = k a h1.
Proof. intros H. unfold mbind, M_bind, bind. rewrite H. reflexivity. Qed.

Lemma read_eval (pool : PoolRef) h p :
  h !! pool = Some p -> read pool h = (Ret p, h).
Proof. intros H. unfold read. rewrite H. reflexivity. Qed.

Lemma update_eval (pool : PoolRef) f h p :
  h !! pool = Some p -> update pool f h = (Ret tt, <[pool := f p]> h).
Proof. intros H. unfold update. rewrite H. reflexivity. Qed.

Lemma read_upper_eval (pool : PoolRef) (i : Z) h p t :
  h !! pool = Some p -> at_index (ticks p) i = Some (TickObj t) ->
  read_upper pool i h = (Ret (upper t), h).
Proof.
  intros Hp Hi. unfold read_upper.
  rewrite (bind_eval _ _ _ _ _ (read_eval _ _ _ Hp)), Hi. reflexivity.
Qed.

Lemma modify_liquidityDelta_eval (pool : PoolRef) (i : Z) f h p t :
  h !! pool = Some p -> at_index (ticks p) i = Some (TickObj t) ->
  modify_liquidityDelta pool i f h =
    (Ret tt,
     <[pool :=
         set_ticks
           (<[Z.to_nat i :=
                TickObj (mkTick (tickIdx t) (f (liquidityDelta t)) (upper t))]>
              (ticks p)) p]> h).
Proof.
  intros Hp Hi. unfold modify_liquidityDelta.
  rewrite (bind_eval _ _ _ _ _ (read_eval _ _ _ Hp)), Hi.
  rewrite (update_eval _ _ _ _ Hp). reflexivity.
Qed.

(** Adding to the net delta of the tick at [i], whichever way the tick is
    stored: the two branches on [upper]. *)
Lemma add_net_branches (pool : PoolRef) (i : Z) (L : Z) h p t :
  h !! pool = Some p -> at_index (ticks p) i = Some (TickObj t) ->
  (if upper t
   then modify_liquidityDelta pool i (fun d => d - L)
   else modify_liquidityDelta pool i (fun d => d + L)) h =
    (Ret tt,
     <[pool := set_ticks (<[Z.to_nat i := TickObj (add_net L t)]> (ticks p)) p]>
       h).
Proof.
  intros Hp Hi. unfold add_net.
  destruct (upper t) eqn:Hu;
    rewrite (modify_liquidityDelta_eval _ _ _ _ _ _ Hp Hi), Hu; reflexivity.
Qed.

Lemma sub_net_branches (pool : PoolRef) (i : Z) (L : Z) h p t :
  h !! pool = Some p -> at_index (ticks p) i = Some (TickObj t) ->
  (if upper t
   then modify_liquidityDelta pool i (fun d => d + L)
   else modify_liquidityDelta pool i (fun d => d - L)) h =
    (Ret tt,
     <[pool :=
         set_ticks (<[Z.to_nat i := TickObj (add_net (- L) t)]> (ticks p)) p]>
       h).
Proof.
  intros Hp Hi. unfold add_net.
  destruct (upper t) eqn:Hu;
    rewrite (modify_liquidityDelta_eval _ _ _ _ _ _ Hp Hi), Hu;
    repeat f_equal; lia.
Qed.

Lemma add_net_eval (pool : PoolRef) (i : Z) (L : Z) h p t :
  h !! pool = Some p -> at_index (ticks p) i = Some (TickObj t) ->
  (u ← read_upper pool i;
   if u : bool
   then modify_liquidityDelta pool i (fun d => d - L)
   else modify_liquidityDelta pool i (fun d => d + L)) h =
    (Ret tt,
     <[pool := set_ticks (<[Z.to_nat i := TickObj (add_net L t)]> (ticks p)) p]>
       h).
Proof.
  intros Hp Hi.
  rewrite (bind_eval _ _ _ _ _ (read_upper_eval _ _ _ _ _ Hp Hi)).
  exact (add_net_branches _ _ _ _ _ _ Hp Hi).
Qed.

Lemma sub_net_eval (pool : PoolRef) (i : Z) (L : Z) h p t :
  h !! pool = Some p -> at_index (ticks p) i = Some (TickObj t) ->
  (u ← read_upper pool i;
   if u : bool
   then modify_liquidityDelta pool i (fun d => d + L)
   else modify_liquidityDelta pool i (fun d => d - L)) h =
    (Ret tt,
     <[pool :=
         set_ticks (<[Z.to_nat i := TickObj (add_net (- L) t)]> (ticks p)) p]>
       h).
Proof.
  intros Hp Hi.
  rewrite (bind_eval _ _ _ _ _ (read_upper_eval _ _ _ _ _ Hp Hi)).
  exact (sub_net_branches _ _ _ _ _ _ Hp Hi).
Qed.

Lemma liquidityDelta_is_zero_eval (pool : PoolRef) (i : Z) h p t :
  h !! pool = Some p -> at_index (ticks p) i = Some (TickObj t) ->
  liquidityDelta_is_zero pool i h = (Ret (liquidityDelta t =? 0), h).
Proof.
  intros Hp Hi. unfold liquidityDelta_is_zero.
  rewrite (bind_eval _ _ _ _ _ (read_eval _ _ _ Hp)), Hi. reflexivity.
Qed.

(** The [slice] statement of Burn writes nothing. *)
Lemma slice_branches (pool : PoolRef) (i : Z) (z : bool) h p :
  h !! pool = Some p ->
  (if z then slice_statement pool i else mret tt) h = (Ret tt, h).
Proof.
  intros Hp. destruct z; [|reflexivity]. unfold slice_statement.
  rewrite (bind_eval _ _ _ _ _ (read_eval _ _ _ Hp)). reflexivity.
Qed.

Lemma add_net_opp (L : Z) (t : TickState) : add_net (- L) (add_net L t) = t.
Proof.
  destruct t as [idx d u]. unfold add_net. simpl.
  destruct u; f_equal; lia.
Qed.

Lemma add_net_opp_r (L : Z) (t : TickState) : add_net L (add_net (- L) t) = t.
Proof.
  destruct t as [idx d u]. unfold add_net. simpl.
  destruct u; f_equal; lia.
Qed.

Lemma liquidityNet_add_net (L : Z) (t : TickState) :
  liquidityNet (TickObj (add_net L t)) =
    (fun n => n + L) <$> liquidityNet (TickObj t).
Proof.
  unfold add_net, liquidityNet. simpl. destruct (upper t); f_equal; lia.
Qed.

Lemma at_index_of_nat {A : Type} (arr : list A) (i : nat) :
  at_index arr (Z.of_nat i) = arr !! i.
Proof.
  unfold at_index. destruct (Z.of_nat i <? 0) eqn:Hi.
  - apply Z.ltb_lt in Hi. lia.
  - rewrite Nat2Z.id. reflexivity.
Qed.

Lemma strictly_sorted_from_indices (arr arr' : list TickSlot) :
  slot_tickIdx <$> arr = slot_tickIdx <$> arr' ->
  forall lo, strictly_sorted_from lo arr = strictly_sorted_from lo arr'.
Proof.
  revert arr'. induction arr as [|s rest IH]; intros [|s' rest'] Heq lo;
    try discriminate; [reflexivity|].
  simpl in Heq. injection Heq as Hs Hrest.
  destruct s as [t|n], s' as [t'|n']; simpl in Hs; try discriminate;
    [|reflexivity].
  injection Hs as Hs. simpl. rewrite Hs. f_equal. apply IH. exact Hrest.
Qed.

(** Changing the delta of a tick keeps the array sorted. *)
Lemma strictly_sorted_insert (arr : list TickSlot) (i : nat) t t' :
  strictly_sorted arr = true -> arr !! i = Some (TickObj t) ->
  tickIdx t' = tickIdx t ->
  strictly_sorted (<[i := TickObj t']> arr) = true.
Proof.
  intros Hs Hi Ht. unfold strictly_sorted in *. rewrite <- Hs.
  apply strictly_sorted_from_indices.
  rewrite list_fmap_insert. apply list_insert_id.
  rewrite list_lookup_fmap, Hi. simpl. rewrite Ht. reflexivity.
Qed.

Lemma sort_insert_below (t : TickState) (rest : list TickSlot) :
  strictly_sorted_from (Some (tickIdx t)) rest = true ->
  sort_insert (TickObj t) rest = TickObj t :: rest.
Proof.
  destruct rest as [|[y|n] rest]; simpl; [reflexivity| |discriminate].
  intros H. apply andb_true_iff in H as [Hlt _]. apply Z.ltb_lt in Hlt.
  unfold sort_compare, compareFn. simpl.
  destruct (tickIdx t - tickIdx y <=? 0) eqn:Hle; [reflexivity|].
  apply Z.leb_gt in Hle. lia.
Qed.

(** Sorting a sorted array changes nothing. *)
Lemma array_sort_sorted (arr : list TickSlot) :
  forall lo, strictly_sorted_from lo arr = true -> array_sort arr = arr.
Proof.
  induction arr as [|s rest IH]; intros lo Hs; [reflexivity|].
  simpl in Hs. destruct s as [t|n]; [|discriminate].
  apply andb_true_iff in Hs as [_ Hrest].
  unfold array_sort in *. simpl. rewrite (IH _ Hrest).
  apply sort_insert_below. exact Hrest.
Qed.

Lemma getTickIdx_found (arr : list TickSlot) (tick : Z) (i : nat) t :
  strictly_sorted arr = true ->
  arr !! i = Some (TickObj t) -> tickIdx t = tick ->
  getTickIdx tick arr = Ret (Z.of_nat i).
Proof.
  intros Hs Hi Ht. unfold getTickIdx.
  pose proof (lookup_lt_Some _ _ _ Hi) as Hlen.
  apply (getTickIdx_loop_found tick arr i t Hs Hi Ht); lia.
Qed.

Lemma lift_eval {A : Type} (o : Outcome A) (a : A) h :
  o = Ret a -> lift o h = (Ret a, h).
Proof. intros ->. reflexivity. Qed.

(** Mint on a sorted book that holds both ticks: the amount is added to
    the net delta at [bottomTick] and taken from the one at [topTick],
    the order of the ticks stays, and [currentLiquidity] grows by the
    amount when bottomTick < currentTick < topTick. *)
Lemma handleMint_found (event : Ev.LogDescription) (pool : PoolRef)
    (log : Log) h p (i j : nat) tb tt :
  let L := Ev.amount (Ev.args event) in
  let bottomTick := Ev.bottomTick (Ev.args event) in
  let topTick := Ev.topTick (Ev.args event) in
  h !! pool = Some p ->
  strictly_sorted (ticks p) = true ->
  ticks p !! i = Some (TickObj tb) -> tickIdx tb = bottomTick ->
  ticks p !! j = Some (TickObj tt) -> tickIdx tt = topTick ->
  i <> j ->
  handleMint event pool log h =
    (Ret pool,
     <[pool :=
         mkPool
           (<[j := TickObj (add_net (- L) tt)]>
              (<[i := TickObj (add_net L tb)]> (ticks p)))
           (currentTick p)
           (if (currentTick p <? topTick) && (currentTick p >? bottomTick)
            then currentLiquidity p + L else currentLiquidity p)
           (fee p)]> h).
Proof.
  intros L bottomTick topTick Hp Hs Hi Hb Hj Ht Hij.
  unfold handleMint. fold L bottomTick topTick.
  rewrite (bind_eval _ _ _ _ _ (read_eval _ _ _ Hp)).
  rewrite (bind_eval _ _ _ _ _
             (lift_eval _ _ _ (getTickIdx_found _ _ _ _ Hs Hi Hb))).
  rewrite (bind_eval _ _ _ _ _
             (lift_eval _ _ _ (getTickIdx_found _ _ _ _ Hs Hj Ht))).
  assert (Hni : (Z.of_nat i =? -1) = false) by (apply Z.eqb_neq; lia).
  assert (Hnj : (Z.of_nat j =? -1) = false) by (apply Z.eqb_neq; lia).
  rewrite Hni, Hnj.
  pose proof (at_index_of_nat (ticks p) i) as Hai. rewrite Hi in Hai.
  rewrite (bind_eval _ _ _ _ _ (add_net_eval _ _ L _ _ _ Hp Hai)).
  rewrite Nat2Z.id.
  set (p1 := set_ticks (<[i := TickObj (add_net L tb)]> (ticks p)) p).
  assert (Hp1 : <[pool := p1]> h !! pool = Some p1) by apply lookup_insert_eq.
  assert (Haj : at_index (ticks p1) (Z.of_nat j) = Some (TickObj tt)).
  { rewrite at_index_of_nat. subst p1. simpl.
    rewrite list_lookup_insert_ne by exact Hij. exact Hj. }
  rewrite (bind_eval _ _ _ _ _ (sub_net_eval _ _ L _ _ _ Hp1 Haj)).
  rewrite Nat2Z.id, insert_insert_eq.
  set (p2 := set_ticks (<[j := TickObj (add_net (- L) tt)]> (ticks p1)) p1).
  assert (Hp2 : <[pool := p2]> h !! pool = Some p2) by apply lookup_insert_eq.
  rewrite (bind_eval _ _ _ _ _ (update_eval _ _ _ _ Hp2)).
  rewrite insert_insert_eq.
  assert (Hsorted : array_sort (ticks p2) = ticks p2).
  { apply (array_sort_sorted _ None). subst p2 p1. simpl.
    apply (strictly_sorted_insert _ j tt); [|  |reflexivity].
    - apply (strictly_sorted_insert _ i tb); [exact Hs | exact Hi | reflexivity].
    - rewrite list_lookup_insert_ne by exact Hij. exact Hj. }
  rewrite Hsorted.
  set (p3 := set_ticks (ticks p2) p2).
  assert (Hp3 : <[pool := p3]> h !! pool = Some p3) by apply lookup_insert_eq.
  rewrite (bind_eval _ _ _ _ _ (read_eval _ _ _ Hp3)).
  change (currentTick p3) with (currentTick p).
  destruct ((currentTick p <? topTick) && (currentTick p >? bottomTick)).
  - rewrite (bind_eval _ _ _ _ _ (update_eval _ _ _ _ Hp3)).
    rewrite insert_insert_eq. reflexivity.
  - reflexivity.
Qed.

(** Burn on a sorted book that holds both ticks: the amount is taken
    from the net delta at [bottomTick] and added to the one at [topTick];
    no tick leaves the array; [currentLiquidity] shrinks by the amount
    when bottomTick < currentTick < topTick. *)
Lemma handleBurn_found (event : Ev.LogDescription) (pool : PoolRef)
    (log : Log) h p (i j : nat) tb tt :
  let L := Ev.amount (Ev.args event) in
  let bottomTick := Ev.bottomTick (Ev.args event) in
  let topTick := Ev.topTick (Ev.args event) in
  h !! pool = Some p ->
  strictly_sorted (ticks p) = true ->
  ticks p !! i = Some (TickObj tb) -> tickIdx tb = bottomTick ->
  ticks p !! j = Some (TickObj tt) -> tickIdx tt = topTick ->
  i <> j ->
  handleBurn event pool log h =
    (Ret pool,
     <[pool :=
         mkPool
           (<[j := TickObj (add_net L tt)]>
              (<[i := TickObj (add_net (- L) tb)]> (ticks p)))
           (currentTick p)
           (if (currentTick p <? topTick) && (currentTick p >? bottomTick)
            then currentLiquidity p - L else currentLiquidity p)
           (fee p)]> h).
Proof.
  intros L bottomTick topTick Hp Hs Hi Hb Hj Ht Hij.
  unfold handleBurn. fold L bottomTick topTick.
  rewrite (bind_eval _ _ _ _ _ (read_eval _ _ _ Hp)).
  rewrite (bind_eval _ _ _ _ _
             (lift_eval _ _ _ (getTickIdx_found _ _ _ _ Hs Hi Hb))).
  rewrite (bind_eval _ _ _ _ _
             (lift_eval _ _ _ (getTickIdx_found _ _ _ _ Hs Hj Ht))).
  pose proof (at_index_of_nat (ticks p) i) as Hai. rewrite Hi in Hai.
  rewrite (bind_eval _ _ _ _ _ (read_upper_eval _ _ _ _ _ Hp Hai)).
  rewrite (bind_eval _ _ _ _ _ (sub_net_branches _ _ L _ _ _ Hp Hai)).
  rewrite Nat2Z.id.
  set (p1 := set_ticks (<[i := TickObj (add_net (- L) tb)]> (ticks p)) p).
  assert (Hp1 : <[pool := p1]> h !! pool = Some p1) by apply lookup_insert_eq.
  assert (Haj : at_index (ticks p1) (Z.of_nat j) = Some (TickObj tt)).
  { rewrite at_index_of_nat. subst p1. simpl.
    rewrite list_lookup_insert_ne by exact Hij. exact Hj. }
  rewrite (bind_eval _ _ _ _ _ (read_upper_eval _ _ _ _ _ Hp1 Haj)).
  rewrite (bind_eval _ _ _ _ _ (add_net_branches _ _ L _ _ _ Hp1 Haj)).
  rewrite Nat2Z.id, insert_insert_eq.
  set (p2 := set_ticks (<[j := TickObj (add_net L tt)]> (ticks p1)) p1).
  assert (Hp2 : <[pool := p2]> h !! pool = Some p2) by apply lookup_insert_eq.
  assert (Hai2 : at_index (ticks p2) (Z.of_nat i)
                 = Some (TickObj (add_net (- L) tb))).
  { rewrite at_index_of_nat. subst p2 p1. simpl.
    rewrite list_lookup_insert_ne by (intros E; apply Hij; symmetry; exact E).
    apply list_lookup_insert_eq. exact (lookup_lt_Some _ _ _ Hi). }
  assert (Haj2 : at_index (ticks p2) (Z.of_nat j)
                 = Some (TickObj (add_net L tt))).
  { rewrite at_index_of_nat. subst p2 p1. simpl.
    apply list_lookup_insert_eq. rewrite length_insert.
    exact (lookup_lt_Some _ _ _ Hj). }
  rewrite (bind_eval _ _ _ _ _ (liquidityDelta_is_zero_eval _ _ _ _ _ Hp2 Hai2)).
  rewrite (bind_eval _ _ _ _ _ (slice_branches _ _ _ _ _ Hp2)).
  rewrite (bind_eval _ _ _ _ _ (liquidityDelta_is_zero_eval _ _ _ _ _ Hp2 Haj2)).
  rewrite (bind_eval _ _ _ _ _ (slice_branches _ _ _ _ _ Hp2)).
  rewrite (bind_eval _ _ _ _ _ (read_eval _ _ _ Hp2)).
  change (currentTick p2) with (currentTick p).
  destruct ((currentTick p <? topTick) && (currentTick p >? bottomTick)).
  - rewrite (bind_eval _ _ _ _ _ (update_eval _ _ _ _ Hp2)).
    rewrite insert_insert_eq. reflexivity.
  - reflexivity.
Qed.

(** Mint followed by Burn of the same range and amount, on a sorted book
    that holds both ticks, gives the book back. *)
Lemma mint_burn_found (pool : PoolRef) (log : Log) h p (i j : nat) tb tt
    (bottomTick topTick L : Z) :
  h !! pool = Some p ->
  strictly_sorted (ticks p) = true ->
  ticks p !! i = Some (TickObj tb) -> tickIdx tb = bottomTick ->
  ticks p !! j = Some (TickObj tt) -> tickIdx tt = topTick ->
  i <> j ->
  exists h1,
    handleMint (Mint bottomTick topTick L) pool log h = (Ret pool, h1) /\
    handleBurn (Burn bottomTick topTick L) pool log h1 = (Ret pool, h).
Proof.
  intros Hp Hs Hi Hb Hj Ht Hij.
  eexists. split.
  - apply (handleMint_found (Mint bottomTick topTick L) pool log h p i j tb tt
             Hp Hs Hi Hb Hj Ht Hij).
  - simpl.
    set (arr1 := <[j := TickObj (add_net (- L) tt)]>
                   (<[i := TickObj (add_net L tb)]> (ticks p))).
    set (p1 := mkPool arr1 _ _ _).
    assert (Hp1 : <[pool := p1]> h !! pool = Some p1) by apply lookup_insert_eq.
    assert (Hs1 : strictly_sorted (ticks p1) = true).
    { subst p1 arr1. simpl.
      apply (strictly_sorted_insert _ j tt); [| |reflexivity].
      - apply (strictly_sorted_insert _ i tb); [exact Hs | exact Hi | reflexivity].
      - rewrite list_lookup_insert_ne by exact Hij. exact Hj. }
    assert (Hi1 : ticks p1 !! i = Some (TickObj (add_net L tb))).
    { subst p1 arr1. simpl.
      rewrite list_lookup_insert_ne by (intros E; apply Hij; symmetry; exact E).
      apply list_lookup_insert_eq. exact (lookup_lt_Some _ _ _ Hi). }
    assert (Hj1 : ticks p1 !! j = Some (TickObj (add_net (- L) tt))).
    { subst p1 arr1. simpl. apply list_lookup_insert_eq.
      rewrite length_insert. exact (lookup_lt_Some _ _ _ Hj). }
    rewrite (handleBurn_found (Burn bottomTick topTick L) pool log _ p1 i j
               _ _ Hp1 Hs1 Hi1 Hb Hj1 Ht Hij).
    rewrite insert_insert_eq. f_equal.
    rewrite <- (insert_id h pool p Hp) at 2. f_equal.
    subst p1 arr1. simpl.
    rewrite add_net_opp, add_net_opp_r.
    destruct p as [arr ct cl f]. simpl in *. f_equal.
    + rewrite (list_insert_insert_ne _ i j) by exact Hij.
      rewrite !list_insert_insert_eq.
      rewrite (list_insert_id _ i) by exact Hi.
      apply list_insert_id. exact Hj.
    + destruct ((ct <? topTick) && (ct >? bottomTick)); lia.
Qed.

End FoundTicks.

(** ** Mint on ticks that the book lacks, and the books reached from a
    fresh pool *)

Section FreshPool.

Context {Log : Type}.

Lemma bind_throw {A B : Type} (m : M A) (k : A -> M B) h e h1 :
  m h = (Throw e, h1) -> (m ≫= k) h = (Throw e, h1).
Proof. intros H. unfold mbind, M_bind, bind. rewrite H. reflexivity. Qed.

Lemma sort_insert_number (n : Z) (arr : list TickSlot) :
  sort_insert (TickNum n) arr = TickNum n :: arr.
Proof. destruct arr as [|y rest]; reflexivity. Qed.

(** Among bare numbers the comparator answers NaN throughout, and the
    sort leaves the array as it is. *)
Lemma array_sort_numbers (arr : list TickSlot) :
  Forall is_number arr -> array_sort arr = arr.
Proof.
  induction 1 as [|s rest [n ->] _ IH]; [reflexivity|].
  unfold array_sort in *. simpl. rewrite IH. apply sort_insert_number.
Qed.

Lemma getTickIdx_numbers (tick : Z) (arr : list TickSlot) :
  Forall is_number arr -> getTickIdx tick arr = Ret (-1).
Proof.
  intros Hnum.
  destruct (getTickIdx_returns tick arr) as (i & Hret & [->|(t & Hat & _)]);
    [exact Hret|].
  apply at_index_Some in Hat as [_ Hat].
  apply list_elem_of_lookup_2 in Hat.
  rewrite Forall_forall in Hnum. destruct (Hnum _ Hat) as [n Hn].
  discriminate.
Qed.

(** Mint on a book in which the search finds neither tick: the two bare
    tick numbers are appended, nothing records the amount in [ticks]. *)
Lemma handleMint_not_found (event : Ev.LogDescription) (pool : PoolRef)
    (log : Log) h p :
  let L := Ev.amount (Ev.args event) in
  let bottomTick := Ev.bottomTick (Ev.args event) in
  let topTick := Ev.topTick (Ev.args event) in
  h !! pool = Some p ->
  getTickIdx bottomTick (ticks p) = Ret (-1) ->
  getTickIdx topTick (ticks p) = Ret (-1) ->
  handleMint event pool log h =
    (Ret pool,
     <[pool :=
         mkPool
           (array_sort (ticks p ++ [TickNum bottomTick; TickNum topTick]))
           (currentTick p)
           (if (currentTick p <? topTick) && (currentTick p >? bottomTick)
            then currentLiquidity p + L else currentLiquidity p)
           (fee p)]> h).
Proof.
  intros L bottomTick topTick Hp Hb Ht.
  unfold handleMint. fold L bottomTick topTick.
  rewrite (bind_eval _ _ _ _ _ (read_eval _ _ _ Hp)).
  rewrite (bind_eval _ _ _ _ _ (lift_eval _ _ _ Hb)).
  rewrite (bind_eval _ _ _ _ _ (lift_eval _ _ _ Ht)).
  change (-1 =? -1) with true. cbv iota.
  rewrite (bind_eval _ _ _ _ _ (update_eval _ _ _ _ Hp)).
  set (p1 := set_ticks (push (TickNum bottomTick) (ticks p)) p).
  assert (Hp1 : <[pool := p1]> h !! pool = Some p1) by apply lookup_insert_eq.
  rewrite (bind_eval _ _ _ _ _ (update_eval _ _ _ _ Hp1)).
  rewrite insert_insert_eq.
  set (p2 := set_ticks (push (TickNum topTick) (ticks p1)) p1).
  assert (Hp2 : <[pool := p2]> h !! pool = Some p2) by apply lookup_insert_eq.
  rewrite (bind_eval _ _ _ _ _ (update_eval _ _ _ _ Hp2)).
  rewrite insert_insert_eq.
  set (p3 := set_ticks (array_sort (ticks p2)) p2).
  assert (Hp3 : <[pool := p3]> h !! pool = Some p3) by apply lookup_insert_eq.
  rewrite (bind_eval _ _ _ _ _ (read_eval _ _ _ Hp3)).
  change (currentTick p3) with (currentTick p).
  assert (Hticks : ticks p3 =
            array_sort (ticks p ++ [TickNum bottomTick; TickNum topTick])).
  { subst p3 p2 p1. simpl. unfold push. rewrite <- app_assoc. reflexivity. }
  destruct ((currentTick p <? topTick) && (currentTick p >? bottomTick)).
  - rewrite (bind_eval _ _ _ _ _ (update_eval _ _ _ _ Hp3)).
    rewrite insert_insert_eq. unfold mret, M_ret, ret.
    rewrite <- Hticks. reflexivity.
  - unfold mret, M_ret, ret. simpl. rewrite <- Hticks. reflexivity.
Qed.

(** Burn on a book in which the search does not find [bottomTick]
    throws at the first read of [pool.ticks[-1].upper]; nothing has been
    written. *)
Lemma handleBurn_bottom_not_found (event : Ev.LogDescription)
    (pool : PoolRef) (log : Log) h p :
  h !! pool = Some p ->
  getTickIdx (Ev.bottomTick (Ev.args event)) (ticks p) = Ret (-1) ->
  handleBurn event pool log h = (Throw TypeError, h).
Proof.
  intros Hp Hb. unfold handleBurn.
  rewrite (bind_eval _ _ _ _ _ (read_eval _ _ _ Hp)).
  rewrite (bind_eval _ _ _ _ _ (lift_eval _ _ _ Hb)).
  destruct (getTickIdx_returns (Ev.topTick (Ev.args event)) (ticks p))
    as (j & Hj & _).
  rewrite (bind_eval _ _ _ _ _ (lift_eval _ _ _ Hj)).
  apply bind_throw. unfold read_upper.
  rewrite (bind_eval _ _ _ _ _ (read_eval _ _ _ Hp)). reflexivity.
Qed.

End FreshPool.

Lemma handleInitialize_eval {Log : Type} (event : Ev.LogDescription)
    (pool : PoolRef) (log : Log) (h : gmap positive PoolState)
    (p : PoolState) :
  h !! pool = Some p ->
  handleInitialize event pool log h =
    (Ret pool,
     <[pool := mkPool (ticks p) (Ev.tick (Ev.args event))
                 (currentLiquidity p) 500]> h).
Proof.
  intros Hp. unfold handleInitialize.
  rewrite (bind_eval _ _ _ _ _ (update_eval _ _ _ _ Hp)).
  rewrite (bind_eval _ _ _ _ _
             (update_eval _ _ _ _ (lookup_insert_eq h pool _))).
  rewrite insert_insert_eq. reflexivity.
Qed.

(** From a fresh pool no tick object ever enters the book: every cell
    of [ticks] is a bare number. *)
Lemma reachable_ticks_are_numbers (p : PoolState) :
  reachable p -> Forall is_number (ticks p).
Proof.
  induction 1 as [tick f|p p' event state state' h' _ IH Harg Hrun Hp'].
  - constructor.
  - assert (Hp : ({[ state := p ]} : gmap positive PoolState) !! state = Some p)
      by apply lookup_singleton_eq.
    revert Hrun. unfold processLog, try_catch.
    rewrite (bind_eval _ _ _ _ _ (lift_eval _ _ _ eq_refl)).
    unfold handlers.
    destruct (String.eqb (Ev.name event) "Swap").
    { rewrite (bind_throw _ _ _ _ _ (handleSwap_decoded_throws _ _ _ _ Harg)).
      discriminate. }
    destruct (String.eqb (Ev.name event) "ChangeFee").
    { unfold handleChangeFee.
      rewrite (bind_eval _ _ _ _ _
                 (bind_eval _ _ _ _ _ (update_eval _ _ _ _ Hp))).
      unfold mret, M_ret, ret. intros Hrun. injection Hrun as <- <-.
      rewrite lookup_insert_eq in Hp'. injection Hp' as <-. exact IH. }
    destruct (String.eqb (Ev.name event) "Burn").
    { rewrite (bind_throw _ _ _ _ _
                 (handleBurn_bottom_not_found _ _ _ _ _ Hp
                    (getTickIdx_numbers _ _ IH))).
      discriminate. }
    destruct (String.eqb (Ev.name event) "Mint").
    { rewrite (bind_eval _ _ _ _ _
                 (handleMint_not_found _ _ _ _ _ Hp
                    (getTickIdx_numbers _ _ IH) (getTickIdx_numbers _ _ IH))).
      unfold mret, M_ret, ret. intros Hrun. injection Hrun as <- <-.
      rewrite lookup_insert_eq in Hp'. injection Hp' as <-. simpl.
      assert (Hall : Forall is_number
                (ticks p ++ [TickNum (Ev.bottomTick (Ev.args event));
                             TickNum (Ev.topTick (Ev.args event))])).
      { apply Forall_app. split; [exact IH|].
        repeat constructor; eexists; reflexivity. }
      rewrite (array_sort_numbers _ Hall). exact Hall. }
    destruct (String.eqb (Ev.name event) "Initialize").
    { rewrite (bind_eval _ _ _ _ _ (handleInitialize_eval _ _ _ _ _ Hp)).
      unfold mret, M_ret, ret. intros Hrun. injection Hrun as <- <-.
      rewrite lookup_insert_eq in Hp'. injection Hp' as <-. exact IH. }
    unfold mret, M_ret, ret. intros Hrun. injection Hrun as <- <-.
    rewrite Hp in Hp'. injection Hp' as <-. exact IH.
Qed.

(** ** The claims on the event handlers *)

(** C1. The claim: in every pool state reached from a fresh pool,
    [currentLiquidity] is the sum of [liquidityNet] over the ticks at or
    below [currentTick].  The code at a fresh pool at tick 0 and
    Mint(-100, 100, 1000): the state reached has [currentLiquidity] 1000,
    while its ticks are the two bare numbers, carry no [liquidityNet],
    and the sum is 0. *)
Theorem first_mint_breaks_liquidity_sum :
  exists p,
    reachable p /\
    ticks p = [TickNum (-100); TickNum 100] /\
    currentLiquidity p = 1000 /\
    activeLiquidity (currentTick p) (ticks p) = 0 /\
    Forall (fun s => liquidityNet s = None) (ticks p).
Proof.
  exists (mkPool [TickNum (-100); TickNum 100] 0 1000 500).
  split; [|repeat split; repeat constructor].
  apply (reachable_event (freshPool 0 500) _ (Mint (-100) 100 1000)
           theRef theRef
           (single (mkPool [TickNum (-100); TickNum 100] 0 1000 500))).
  - constructor.
  - reflexivity.
  - reflexivity.
  - reflexivity.
Qed.

(** C2. The claim: Mint adds the amount as a delta at [bottomTick] and
    [topTick], inserting an entry where none exists, and raises
    [currentLiquidity] when bottomTick <= currentTick < topTick.  The
    code: on a book without the two ticks it appends the two bare tick
    numbers, with no delta; on a book whose price is at [bottomTick] it
    leaves [currentLiquidity] as it was. *)
Theorem handleMint_new_ticks_and_lower_bound :
  handleMint (Mint (-100) 100 1000) theRef tt (single (freshPool 0 500)) =
    (Ret theRef, single (mkPool [TickNum (-100); TickNum 100] 0 1000 500)) /\
  handleMint (Mint (-100) 100 10) theRef tt (single atLowerBound) =
    (Ret theRef,
     single
       (mkPool
          [TickObj (mkTick (-100) 1010 false); TickObj (mkTick 100 1010 true)]
          (-100) 1000 500)).
Proof. split; reflexivity. Qed.

(** C3. The claim: after every event the ticks are strictly ascending
    with unique indices and none has a zero delta.  The code: Burn of the
    whole of the only position of a sorted book without zero deltas
    leaves both ticks in the array with delta 0; two Mints on a fresh
    pool leave four bare numbers, in arrival order. *)
Theorem handleBurn_keeps_zero_ticks :
  strictly_sorted (ticks onePosition) = true /\
  no_zero_net (ticks onePosition) = true /\
  (exists p',
     processLog Ret theRef (Burn (-100) 100 1000) (single onePosition) =
       (Ret (Some theRef), single p') /\
     ticks p' =
       [TickObj (mkTick (-100) 0 false); TickObj (mkTick 100 0 true)] /\
     no_zero_net (ticks p') = false) /\
  (exists h1 p',
     processLog Ret theRef (Mint 5 10 1) (single (freshPool 0 500)) =
       (Ret (Some theRef), h1) /\
     processLog Ret theRef (Mint 1 2 1) h1 = (Ret (Some theRef), single p') /\
     ticks p' = [TickNum 5; TickNum 10; TickNum 1; TickNum 2] /\
     strictly_sorted (ticks p') = false).
Proof.
  split; [reflexivity|]. split; [reflexivity|]. split.
  - eexists. split; [reflexivity|]. split; reflexivity.
  - eexists. eexists. split; [reflexivity|]. split; [reflexivity|].
    split; reflexivity.
Qed.

(** C4. The claim: Mint(a, b, L) followed by Burn(a, b, L) gives back the
    ticks and [currentLiquidity] of the book it started from.  The code
    at a fresh pool at tick 0 with Mint(-100, 100, 1000): Burn finds
    neither tick and throws, and the book keeps the two bare numbers and
    the liquidity 1000. *)
Theorem mint_then_burn_differs :
  exists h1,
    handleMint (Mint (-100) 100 1000) theRef tt (single (freshPool 0 500)) =
      (Ret theRef, h1) /\
    handleBurn (Burn (-100) 100 1000) theRef tt h1 = (Throw TypeError, h1) /\
    processLog Ret theRef (Burn (-100) 100 1000) h1 = (Ret None, h1) /\
    h1 = single (mkPool [TickNum (-100); TickNum 100] 0 1000 500) /\
    h1 !! theRef <> Some (freshPool 0 500).
Proof.
  eexists. split; [reflexivity|]. split; [reflexivity|].
  split; [reflexivity|]. split; [reflexivity|]. discriminate.
Qed.

(** C5. The claim: a handler returns a new snapshot and leaves the one
    it was given unchanged.  The code: ChangeFee and Mint return the
    reference they were given, and the object behind it, the previous
    snapshot, now has the new fee, or the new deltas and liquidity. *)
Theorem handlers_mutate_in_place :
  handleChangeFee (ChangeFee 3000) theRef tt (single onePosition) =
    (Ret theRef, single (set_fee 3000 onePosition)) /\
  single (set_fee 3000 onePosition) !! theRef <> Some onePosition /\
  handleMint (Mint (-100) 100 10) theRef tt (single onePosition) =
    (Ret theRef,
     single
       (mkPool
          [TickObj (mkTick (-100) 1010 false); TickObj (mkTick 100 1010 true)]
          0 1010 500)) /\
  single
    (mkPool
       [TickObj (mkTick (-100) 1010 false); TickObj (mkTick 100 1010 true)]
       0 1010 500) !! theRef <> Some onePosition.
Proof.
  split; [reflexivity|]. split; [discriminate|].
  split; [reflexivity|]. discriminate.
Qed.

(** C6. The claim: when the handler fails, [processLog] answers [null]
    and the previous snapshot is in force unmodified.  The code at a
    book that holds tick -100 and not tick 100, with
    Burn(-100, 100, 400): the answer is [null], and the delta at -100 has
    already gone from 1000 to 600. *)
Theorem processLog_failure_keeps_partial_update :
  processLog Ret theRef (Burn (-100) 100 400) (single lowerTickOnly) =
    (Ret None, single (mkPool [TickObj (mkTick (-100) 600 false)] 0 1000 500)) /\
  single (mkPool [TickObj (mkTick (-100) 600 false)] 0 1000 500) !! theRef
    <> Some lowerTickOnly.
Proof. split; [reflexivity | discriminate]. Qed.

(** C9, as the code has it.  Initialize sets [currentTick] to the tick of
    the event and [fee] to 500, and leaves [ticks] and
    [currentLiquidity] as they were. *)
Theorem handleInitialize_effect {Log : Type} (event : Ev.LogDescription)
    (pool : PoolRef) (log : Log) (h : gmap positive PoolState)
    (p : PoolState) :
  h !! pool = Some p ->
  handleInitialize event pool log h =
    (Ret pool,
     <[pool := mkPool (ticks p) (Ev.tick (Ev.args event))
                 (currentLiquidity p) 500]> h).
Proof.
  intros Hp. unfold handleInitialize, mbind, M_bind, bind, update, mret, M_ret, ret.
  rewrite Hp. rewrite lookup_insert_eq. rewrite insert_insert_eq.
  reflexivity.
Qed.

Lemma handleInitialize_effect_witness :
  handleInitialize (Initialize 5 3000) theRef tt (single lowerTickOnly) =
    (Ret theRef,
     <[theRef := mkPool (ticks lowerTickOnly) 5 1000 500]>
       (single lowerTickOnly)).
Proof.
  apply (handleInitialize_effect (Initialize 5 3000) theRef tt
           (single lowerTickOnly) lowerTickOnly).
  reflexivity.
Defined.

(** C9 as claimed fails: Initialize(5, 3000) on a book with a tick and
    liquidity 1000 gives fee 500, not 3000, and keeps the tick and the
    liquidity. *)
Lemma handleInitialize_keeps_book :
  exists p',
    handleInitialize (Initialize 5 3000) theRef tt (single lowerTickOnly) =
      (Ret theRef, single p') /\
    currentTick p' = 5 /\
    fee p' <> 3000 /\ ticks p' <> [] /\ currentLiquidity p' <> 0.
Proof.
  eexists. split; [reflexivity|]. repeat split; discriminate.
Qed.

(** ** The pricing loops *)

Section PricingFacts.

Context {Price Fn StepIn StepOut : Type}.
Variable getSqrtRatioAtTick : Z -> Outcome Price.
Variable getNextSqrtPriceFromInput : Fn.
Variable computeSwapStep :
  Price -> Fn -> Z -> Z -> Z -> Outcome (Price * StepIn * StepOut).
Variable minus : Z -> StepIn -> JsError + Z.
Variable text_of : StepOut -> JsError + string.
Variable zero_primitive : JsError + string.
Variable maxLength : nat.

(** The final division throws, whatever the divisor has become. *)
Lemma divide_throws (amountIn : Z) (amountOut : Accumulated) :
  exists e, divide zero_primitive amountIn amountOut = Throw e.
Proof.
  unfold divide.
  destruct amountOut; [destruct zero_primitive|]; eexists; reflexivity.
Qed.

(** The loop of [getBuyPrice] does not read [ticks]. *)
Lemma getBuyPrice_ignores_ticks (fuel : nat) (poolState : PoolState)
    (destAmount : Z) (arr : list TickSlot) :
  getBuyPrice getSqrtRatioAtTick getNextSqrtPriceFromInput computeSwapStep
    minus text_of zero_primitive maxLength fuel (set_ticks arr poolState)
    destAmount =
  getBuyPrice getSqrtRatioAtTick getNextSqrtPriceFromInput computeSwapStep
    minus text_of zero_primitive maxLength fuel poolState destAmount.
Proof. reflexivity. Qed.


(** The loop of [getSellPrice] enters at most one body. *)
Lemma getSellPrice_one_turn (poolState : PoolState) (srcAmount : Z) :
  (snd (getSellPrice getSqrtRatioAtTick zero_primitive poolState srcAmount)
   <= 1)%nat.
Proof.
  unfold getSellPrice, getSellPrice_loop.
  destruct (srcAmount >? 0); [destruct (getSqrtRatioAtTick _)|]; simpl; lia.
Qed.

End PricingFacts.

(** * Further properties *)

(** ** mostSignificantBit: order and bounds *)

(** X1. [mostSignificantBit] is monotone on its range, and its result
    lies between 0 and 255. *)
Theorem mostSignificantBit_monotone (x y : Z) :
  1 <= x -> x <= y -> y <= BitWidth.MaxUint256 ->
  exists mx my,
    BitWidth.mostSignificantBit x = Some mx /\
    BitWidth.mostSignificantBit y = Some my /\
    0 <= mx /\ mx <= my /\ my <= 255.
Proof.
  intros Hx Hxy Hy.
  destruct (mostSignificantBit_in_range x ltac:(lia)) as (mx & Ex & Hmx & Hbx).
  destruct (mostSignificantBit_in_range y ltac:(lia)) as (my & Ey & Hmy & Hby).
  exists mx, my. repeat split; try assumption.
  - destruct (Z.le_gt_cases mx my) as [H|H]; [exact H|].
    assert (2 ^ (my + 1) <= 2 ^ mx) by (apply Z.pow_le_mono_r; lia). lia.
  - destruct (Z.le_gt_cases my 255) as [H|H]; [exact H|].
    assert (2 ^ 256 <= 2 ^ my) by (apply Z.pow_le_mono_r; lia).
    rewrite MaxUint256_eq in Hy. lia.
Qed.

Lemma mostSignificantBit_monotone_witness :
  exists mx my,
    BitWidth.mostSignificantBit 5 = Some mx /\
    BitWidth.mostSignificantBit 1000 = Some my /\
    0 <= mx /\ mx <= my /\ my <= 255.
Proof.
  apply (mostSignificantBit_monotone 5 1000); [lia | lia |].
  vm_compute. discriminate.
Defined.

(** X2. Every number from 2^k up to, not including, 2^(k+1) has most
    significant bit [k], for k from 0 to 255: the low bits play no
    role. *)
Theorem mostSignificantBit_block (k r : Z) :
  0 <= k <= 255 -> 0 <= r < 2 ^ k ->
  BitWidth.mostSignificantBit (2 ^ k + r) = Some k.
Proof.
  intros Hk Hr.
  assert (Hpos : 0 < 2 ^ k) by (apply Z.pow_pos_nonneg; lia).
  assert (Hmax : 2 ^ (k + 1) <= 2 ^ 256) by (apply Z.pow_le_mono_r; lia).
  assert (Hk1 : 2 ^ (k + 1) = 2 * 2 ^ k).
  { rewrite Z.pow_add_r by lia. change (2 ^ 1) with 2. lia. }
  destruct (mostSignificantBit_in_range (2 ^ k + r)) as (m & Em & Hm & Hb).
  { rewrite MaxUint256_eq. lia. }
  rewrite Em. f_equal.
  destruct (Z.lt_trichotomy m k) as [Hlt|[Heq|Hgt]]; [|exact Heq|].
  - assert (2 ^ (m + 1) <= 2 ^ k) by (apply Z.pow_le_mono_r; lia). lia.
  - assert (2 ^ (k + 1) <= 2 ^ m) by (apply Z.pow_le_mono_r; lia). lia.
Qed.

Lemma mostSignificantBit_block_witness :
  BitWidth.mostSignificantBit (2 ^ 200 + 12345) = Some 200.
Proof.
  apply (mostSignificantBit_block 200 12345); [lia|].
  split; [lia|]. vm_compute. reflexivity.
Defined.

(** ** What the handlers write *)

Section Behaviour.

Variable pool : PoolRef.
Variable Q : PoolState -> PoolState -> Prop.
Hypothesis Q_refl : forall p, Q p p.
Hypothesis Q_trans : forall p1 p2 p3, Q p1 p2 -> Q p2 p3 -> Q p1 p3.

Lemma store_rel_refl h : store_rel (on_pool pool Q) h h.
Proof.
  intros r. destruct (h !! r) as [p|]; [|exact I].
  unfold on_pool. destruct (decide (r = pool)); auto.
Qed.

Lemma store_rel_trans h1 h2 h3 :
  store_rel (on_pool pool Q) h1 h2 -> store_rel (on_pool pool Q) h2 h3 ->
  store_rel (on_pool pool Q) h1 h3.
Proof.
  intros H12 H23 r. specialize (H12 r). specialize (H23 r).
  destruct (h1 !! r) as [p1|], (h2 !! r) as [p2|], (h3 !! r) as [p3|];
    try contradiction; try exact I.
  unfold on_pool in *. destruct (decide (r = pool)); [eauto | congruence].
Qed.

Lemma store_rel_update h p p' :
  h !! pool = Some p -> Q p p' ->
  store_rel (on_pool pool Q) h (<[pool := p']> h).
Proof.
  intros Hp HQ r. destruct (decide (r = pool)) as [->|Hne].
  - rewrite Hp, lookup_insert_eq. unfold on_pool.
    destruct (decide (pool = pool)); [exact HQ | congruence].
  - rewrite lookup_insert_ne by congruence.
    destruct (h !! r) as [q|]; [|exact I].
    unfold on_pool. destruct (decide (r = pool)); [contradiction | reflexivity].
Qed.

Lemma behaves_unchanged {A : Type} (m : M A) :
  (forall h, fst (m h) <> OutOfFuel /\ snd (m h) = h) -> behaves pool Q m.
Proof.
  intros H h. destruct (H h) as [Hf Hs]. split; [exact Hf|].
  rewrite Hs. apply store_rel_refl.
Qed.

Lemma behaves_ret {A : Type} (a : A) : behaves pool Q (mret a : M A).
Proof. apply behaves_unchanged. intros h. split; [discriminate | reflexivity]. Qed.

Lemma behaves_throw {A : Type} e : behaves pool Q (throw e : M A).
Proof. apply behaves_unchanged. intros h. split; [discriminate | reflexivity]. Qed.

Lemma behaves_lift {A : Type} (o : Outcome A) :
  o <> OutOfFuel -> behaves pool Q (lift o).
Proof. intros Ho. apply behaves_unchanged. intros h. split; [exact Ho | reflexivity]. Qed.

Lemma behaves_read r : behaves pool Q (read r).
Proof.
  apply behaves_unchanged. intros h. unfold read.
  destruct (h !! r); split; try discriminate; reflexivity.
Qed.

Lemma behaves_bind {A B : Type} (m : M A) (k : A -> M B) :
  behaves pool Q m -> (forall a, behaves pool Q (k a)) ->
  behaves pool Q (m ≫= k).
Proof.
  intros Hm Hk h. specialize (Hm h).
  unfold mbind, M_bind, bind. destruct (m h) as [[a|e|] h1]; simpl in Hm.
  - destruct Hm as [_ H1]. destruct (Hk a h1) as [Hf H2].
    split; [exact Hf|]. exact (store_rel_trans _ _ _ H1 H2).
  - destruct Hm as [_ H1]. split; [discriminate | exact H1].
  - destruct Hm as [Hf _]. contradiction.
Qed.


Lemma behaves_update (f : PoolState -> PoolState) :
  (forall p, Q p (f p)) -> behaves pool Q (update pool f).
Proof.
  intros Hf h. unfold update. destruct (h !! pool) as [p|] eqn:Hp; simpl.
  - split; [discriminate|]. exact (store_rel_update h p (f p) Hp (Hf p)).
  - split; [discriminate | apply store_rel_refl].
Qed.

Lemma behaves_read_upper i : behaves pool Q (read_upper pool i).
Proof.
  unfold read_upper. apply behaves_bind; [apply behaves_read|].
  intros p. destruct (at_index (ticks p) i) as [[t|n]|];
    [apply behaves_ret | apply behaves_ret | apply behaves_throw].
Qed.

Lemma behaves_liquidityDelta_is_zero i :
  behaves pool Q (liquidityDelta_is_zero pool i).
Proof.
  unfold liquidityDelta_is_zero. apply behaves_bind; [apply behaves_read|].
  intros p. destruct (at_index (ticks p) i) as [[t|n]|];
    [apply behaves_ret | apply behaves_ret | apply behaves_throw].
Qed.

Lemma behaves_slice_statement i : behaves pool Q (slice_statement pool i).
Proof.
  unfold slice_statement. apply behaves_bind; [apply behaves_read|].
  intros p. apply behaves_bind; intros; apply behaves_ret.
Qed.

(** The write of a delta: the cell read and the cell written are the
    same cell of the same object. *)
Hypothesis Q_delta :
  forall p (i : nat) t d,
    ticks p !! i = Some (TickObj t) ->
    Q p (set_ticks
           (<[i := TickObj (mkTick (tickIdx t) d (upper t))]> (ticks p)) p).

Lemma behaves_modify_liquidityDelta i f :
  behaves pool Q (modify_liquidityDelta pool i f).
Proof.
  intros h. unfold modify_liquidityDelta, mbind, M_bind, bind, read.
  destruct (h !! pool) as [p|] eqn:Hp; simpl;
    [|split; [discriminate | apply store_rel_refl]].
  destruct (at_index (ticks p) i) as [[t|n]|] eqn:Hi; simpl;
    try (split; [discriminate | apply store_rel_refl]).
  unfold update. rewrite Hp. simpl. split; [discriminate|].
  apply (store_rel_update h p _ Hp).
  apply Q_delta. apply at_index_Some in Hi as [_ Hi]. exact Hi.
Qed.

Hypothesis Q_liquidity : forall p v, Q p (set_currentLiquidity v p).

Lemma behaves_handleBurn {Log : Type} (event : Ev.LogDescription) (log : Log) :
  behaves pool Q (handleBurn event pool log).
Proof.
  unfold handleBurn.
  apply behaves_bind; [apply behaves_read | intros p].
  apply behaves_bind; [apply behaves_lift | intros bottomTickIdx].
  { destruct (getTickIdx_returns (Ev.bottomTick (Ev.args event)) (ticks p))
      as (i & -> & _). discriminate. }
  apply behaves_bind; [apply behaves_lift | intros topTickIdx].
  { destruct (getTickIdx_returns (Ev.topTick (Ev.args event)) (ticks p))
      as (i & -> & _). discriminate. }
  apply behaves_bind; [apply behaves_read_upper | intros u].
  apply behaves_bind;
    [destruct u; apply behaves_modify_liquidityDelta | intros _].
  apply behaves_bind; [apply behaves_read_upper | intros u'].
  apply behaves_bind;
    [destruct u'; apply behaves_modify_liquidityDelta | intros _].
  apply behaves_bind; [apply behaves_liquidityDelta_is_zero | intros z].
  apply behaves_bind;
    [destruct z; [apply behaves_slice_statement | apply behaves_ret]
    | intros _].
  apply behaves_bind; [apply behaves_liquidityDelta_is_zero | intros z'].
  apply behaves_bind;
    [destruct z'; [apply behaves_slice_statement | apply behaves_ret]
    | intros _].
  apply behaves_bind; [apply behaves_read | intros p'].
  apply behaves_bind; [|intros _; apply behaves_ret].
  destruct (_ && _); [|apply behaves_ret].
  apply behaves_update. intros q. exact (Q_liquidity q _).
Qed.

Hypothesis Q_push : forall p n, Q p (set_ticks (push (TickNum n) (ticks p)) p).
Hypothesis Q_sort : forall p, Q p (set_ticks (array_sort (ticks p)) p).

Lemma behaves_handleMint {Log : Type} (event : Ev.LogDescription) (log : Log) :
  behaves pool Q (handleMint event pool log).
Proof.
  unfold handleMint.
  apply behaves_bind; [apply behaves_read | intros p].
  apply behaves_bind; [apply behaves_lift | intros bottomTickIdx].
  { destruct (getTickIdx_returns (Ev.bottomTick (Ev.args event)) (ticks p))
      as (i & -> & _). discriminate. }
  apply behaves_bind; [apply behaves_lift | intros topTickIdx].
  { destruct (getTickIdx_returns (Ev.topTick (Ev.args event)) (ticks p))
      as (i & -> & _). discriminate. }
  apply behaves_bind; [|intros _].
  { destruct (bottomTickIdx =? -1).
    - apply behaves_update. intros q. exact (Q_push q _).
    - apply behaves_bind; [apply behaves_read_upper | intros u].
      destruct u; apply behaves_modify_liquidityDelta. }
  apply behaves_bind; [|intros _].
  { destruct (topTickIdx =? -1).
    - apply behaves_update. intros q. exact (Q_push q _).
    - apply behaves_bind; [apply behaves_read_upper | intros u].
      destruct u; apply behaves_modify_liquidityDelta. }
  apply behaves_bind; [apply behaves_update; intros q; exact (Q_sort q) | intros _].
  apply behaves_bind; [apply behaves_read | intros p'].
  apply behaves_bind; [|intros _; apply behaves_ret].
  destruct (_ && _); [|apply behaves_ret].
  apply behaves_update. intros q. exact (Q_liquidity q _).
Qed.

End Behaviour.

Section Locality.

Context {Log : Type}.


End Locality.



Section Shapes.

Lemma same_book_shape_refl p : same_book_shape p p.
Proof. repeat split. Qed.

Lemma same_book_shape_trans p1 p2 p3 :
  same_book_shape p1 p2 -> same_book_shape p2 p3 -> same_book_shape p1 p3.
Proof.
  intros (A1 & B1 & C1) (A2 & B2 & C2). repeat split; congruence.
Qed.

Lemma slot_key_insert_delta (arr : list TickSlot) (i : nat) t d :
  arr !! i = Some (TickObj t) ->
  slot_key <$> <[i := TickObj (mkTick (tickIdx t) d (upper t))]> arr =
  slot_key <$> arr.
Proof.
  intros Hi. rewrite list_fmap_insert. apply list_insert_id.
  rewrite list_lookup_fmap, Hi. reflexivity.
Qed.

Lemma book_extended_refl p : book_extended p p.
Proof.
  repeat split. exists []. simpl. rewrite app_nil_r. reflexivity.
Qed.

Lemma book_extended_trans p1 p2 p3 :
  book_extended p1 p2 -> book_extended p2 p3 -> book_extended p1 p3.
Proof.
  intros (A1 & B1 & e1 & C1) (A2 & B2 & e2 & C2).
  split; [congruence|]. split; [congruence|].
  exists (e1 ++ e2). rewrite C2, C1, fmap_app, app_assoc. reflexivity.
Qed.

Lemma sort_insert_Permutation x arr : sort_insert x arr ≡ₚ x :: arr.
Proof.
  induction arr as [|y rest IH]; simpl; [reflexivity|].
  destruct (sort_compare x y <=? 0); [reflexivity|].
  rewrite IH. apply Permutation_swap.
Qed.

(** The sort keeps the cells: it reorders them at most. *)
Lemma array_sort_Permutation arr : array_sort arr ≡ₚ arr.
Proof.
  induction arr as [|x rest IH]; [reflexivity|].
  unfold array_sort in *. simpl. rewrite sort_insert_Permutation, IH.
  reflexivity.
Qed.

End Shapes.

Section KeptShape.

Context {Log : Type}.

Lemma handleBurn_shape (event : Ev.LogDescription) (pool : PoolRef)
    (log : Log) h p :
  h !! pool = Some p ->
  exists p',
    snd (handleBurn event pool log h) !! pool = Some p' /\
    same_book_shape p p'.
Proof.
  intros Hp.
  assert (Hb : behaves pool same_book_shape (handleBurn event pool log)).
  { apply behaves_handleBurn.
    - apply same_book_shape_refl.
    - apply same_book_shape_trans.
    - intros q i t d Hi. repeat split. simpl.
      apply slot_key_insert_delta. exact Hi.
    - intros q v. repeat split. }
  destruct (Hb h) as [_ Hrel]. specialize (Hrel pool).
  rewrite Hp in Hrel.
  destruct (snd (handleBurn event pool log h) !! pool) as [p'|];
    [|contradiction].
  unfold on_pool in Hrel. destruct (decide (pool = pool)); [|congruence].
  eauto.
Qed.

Lemma handleMint_shape (event : Ev.LogDescription) (pool : PoolRef)
    (log : Log) h p :
  h !! pool = Some p ->
  exists p',
    snd (handleMint event pool log h) !! pool = Some p' /\
    book_extended p p'.
Proof.
  intros Hp.
  assert (Hb : behaves pool book_extended (handleMint event pool log)).
  { apply behaves_handleMint.
    - apply book_extended_refl.
    - apply book_extended_trans.
    - intros q i t d Hi. split; [reflexivity|]. split; [reflexivity|].
      exists []. simpl. rewrite app_nil_r.
      rewrite (slot_key_insert_delta _ _ _ _ Hi). reflexivity.
    - intros q v. split; [reflexivity|]. split; [reflexivity|].
      exists []. simpl. rewrite app_nil_r. reflexivity.
    - intros q n. split; [reflexivity|]. split; [reflexivity|].
      exists [n]. simpl. unfold push. rewrite fmap_app. reflexivity.
    - intros q. split; [reflexivity|]. split; [reflexivity|].
      exists []. simpl. rewrite app_nil_r.
      rewrite array_sort_Permutation. reflexivity. }
  destruct (Hb h) as [_ Hrel]. specialize (Hrel pool).
  rewrite Hp in Hrel.
  destruct (snd (handleMint event pool log h) !! pool) as [p'|];
    [|contradiction].
  unfold on_pool in Hrel. destruct (decide (pool = pool)); [|congruence].
  eauto.
Qed.

End KeptShape.

(** X4. Burn never removes, adds or re-keys a tick, and never touches
    [currentTick] or [fee]: whatever the event and the book, and whether
    the handler returns or throws, the cells of [ticks] keep their number,
    order, [tickIdx] and [upper]. *)
Theorem handleBurn_keeps_book_shape {Log : Type} (event : Ev.LogDescription)
    (pool : PoolRef) (log : Log) (h : gmap positive PoolState)
    (p : PoolState) :
  h !! pool = Some p ->
  exists p',
    snd (handleBurn event pool log h) !! pool = Some p' /\
    currentTick p' = currentTick p /\
    fee p' = fee p /\
    slot_key <$> ticks p' = slot_key <$> ticks p /\
    length (ticks p') = length (ticks p).
Proof.
  intros Hp.
  destruct (handleBurn_shape event pool log h p Hp) as (p' & Hp' & A & B & C).
  exists p'. repeat split; try assumption.
  rewrite <- (length_fmap slot_key (ticks p')), C. apply length_fmap.
Qed.

Lemma handleBurn_keeps_book_shape_witness :
  exists p',
    snd (handleBurn (Burn (-100) 100 1000) theRef tt (single onePosition))
      !! theRef = Some p' /\
    currentTick p' = currentTick onePosition /\
    fee p' = fee onePosition /\
    slot_key <$> ticks p' = slot_key <$> ticks onePosition /\
    length (ticks p') = length (ticks onePosition).
Proof.
  apply (handleBurn_keeps_book_shape (Burn (-100) 100 1000) theRef tt
           (single onePosition) onePosition).
  reflexivity.
Defined.

(** X5. Mint never drops or re-keys a tick and never touches
    [currentTick] or [fee]: whatever the event and the book, and whether
    the handler returns or throws, the new [ticks] holds the cells of the
    old one with their [tickIdx] and [upper], up to order, and what comes
    on top are bare numbers. *)
Theorem handleMint_extends_book {Log : Type} (event : Ev.LogDescription)
    (pool : PoolRef) (log : Log) (h : gmap positive PoolState)
    (p : PoolState) :
  h !! pool = Some p ->
  exists p' (extra : list Z),
    snd (handleMint event pool log h) !! pool = Some p' /\
    currentTick p' = currentTick p /\
    fee p' = fee p /\
    slot_key <$> ticks p' ≡ₚ (slot_key <$> ticks p) ++ (inr <$> extra).
Proof.
  intros Hp.
  destruct (handleMint_shape event pool log h p Hp)
    as (p' & Hp' & A & B & extra & C).
  exists p', extra. repeat split; assumption.
Qed.

Lemma handleMint_extends_book_witness :
  exists p' (extra : list Z),
    snd (handleMint (Mint 5 10 1) theRef tt (single onePosition))
      !! theRef = Some p' /\
    currentTick p' = currentTick onePosition /\
    fee p' = fee onePosition /\
    slot_key <$> ticks p'
      ≡ₚ (slot_key <$> ticks onePosition) ++ (inr <$> extra).
Proof.
  apply (handleMint_extends_book (Mint 5 10 1) theRef tt
           (single onePosition) onePosition).
  reflexivity.
Defined.

(** ** Which event writes which field *)

Section FieldWriters.

Context {Log : Type}.
Variable logDecoder : Log -> Outcome Ev.LogDescription.

Lemma processLog_store (state : PoolRef) (log : Log) event handler h :
  logDecoder log = Ret event ->
  handlers (Ev.name event) = Some handler ->
  snd (processLog logDecoder state log h) = snd (handler event state log h).
Proof.
  intros Hd Hh. unfold processLog, try_catch.
  rewrite (bind_eval _ _ _ _ _ (lift_eval _ _ _ Hd)), Hh.
  unfold mbind, M_bind, bind.
  destruct (handler event state log h) as [[r|e|] h1]; reflexivity.
Qed.

End FieldWriters.

(** X6. For an event as the decoder delivers it, whether its handler
    returns or throws: [ticks] and [currentLiquidity] change on Mint and
    Burn only, [fee] on ChangeFee and Initialize only, and [currentTick]
    on Initialize only. *)
Theorem processLog_field_writers {Log : Type}
    (logDecoder : Log -> Outcome Ev.LogDescription) (state : PoolRef)
    (log : Log) (event : Ev.LogDescription) (h : gmap positive PoolState)
    (p : PoolState) :
  logDecoder log = Ret event ->
  Ev.arg event = None ->
  h !! state = Some p ->
  exists p',
    snd (processLog logDecoder state log h) !! state = Some p' /\
    (Ev.name event <> "Mint" -> Ev.name event <> "Burn" ->
     ticks p' = ticks p /\ currentLiquidity p' = currentLiquidity p) /\
    (Ev.name event <> "ChangeFee" -> Ev.name event <> "Initialize" ->
     fee p' = fee p) /\
    (Ev.name event <> "Initialize" -> currentTick p' = currentTick p).
Proof.
  intros Hd Harg Hp.
  destruct (handlers (Log:=Log) (Ev.name event)) as [handler|] eqn:Hh.
  - rewrite (processLog_store logDecoder state log event handler h Hd Hh).
    revert Hh. unfold handlers.
    destruct (String.eqb_spec (Ev.name event) "Swap") as [Hn|_].
    { intros Hh. injection Hh as <-.
      rewrite (handleSwap_decoded_throws _ _ _ _ Harg). simpl.
      exists p. tauto. }
    destruct (String.eqb_spec (Ev.name event) "ChangeFee") as [Hn|_].
    { intros Hh. injection Hh as <-. unfold handleChangeFee.
      rewrite (bind_eval _ _ _ _ _ (update_eval _ _ _ _ Hp)). simpl.
      rewrite lookup_insert_eq. eexists. split; [reflexivity|].
      simpl. repeat split; try reflexivity. intros Hc. contradiction. }
    destruct (String.eqb_spec (Ev.name event) "Burn") as [Hn|_].
    { intros Hh. injection Hh as <-.
      destruct (handleBurn_shape event state log h p Hp)
        as (p' & Hp' & A & B & _).
      exists p'. split; [exact Hp'|]. tauto. }
    destruct (String.eqb_spec (Ev.name event) "Mint") as [Hn|_].
    { intros Hh. injection Hh as <-.
      destruct (handleMint_shape event state log h p Hp)
        as (p' & Hp' & A & B & _).
      exists p'. split; [exact Hp'|]. tauto. }
    destruct (String.eqb_spec (Ev.name event) "Initialize") as [Hn|_];
      [|discriminate].
    intros Hh. injection Hh as <-.
    rewrite (handleInitialize_eval _ _ _ _ _ Hp). simpl.
    rewrite lookup_insert_eq. eexists. split; [reflexivity|]. simpl.
    repeat split; try reflexivity; intros; contradiction.
  - rewrite (processLog_other_event logDecoder state log event h Hd Hh).
    simpl. exists p. tauto.
Qed.

Lemma processLog_field_writers_witness :
  exists p',
    snd (processLog Ret theRef (ChangeFee 3000) (single onePosition))
      !! theRef = Some p' /\
    (Ev.name (ChangeFee 3000) <> "Mint" ->
     Ev.name (ChangeFee 3000) <> "Burn" ->
     ticks p' = ticks onePosition /\
     currentLiquidity p' = currentLiquidity onePosition) /\
    (Ev.name (ChangeFee 3000) <> "ChangeFee" ->
     Ev.name (ChangeFee 3000) <> "Initialize" ->
     fee p' = fee onePosition) /\
    (Ev.name (ChangeFee 3000) <> "Initialize" ->
     currentTick p' = currentTick onePosition).
Proof.
  apply (processLog_field_writers Ret theRef (ChangeFee 3000) (ChangeFee 3000)
           (single onePosition) onePosition); reflexivity.
Defined.

(** X7. A Swap event as the decoder delivers it is never applied:
    [processLog] answers [null] and nothing is written.  Were [arg]
    there, the handler would set [currentTick] and [currentLiquidity] to
    the event's and leave [ticks] and [fee]. *)
Theorem processLog_swap {Log : Type}
    (logDecoder : Log -> Outcome Ev.LogDescription) (state : PoolRef)
    (log : Log) (event : Ev.LogDescription) (h : gmap positive PoolState)
    (p : PoolState) :
  logDecoder log = Ret event ->
  Ev.name event = "Swap" ->
  h !! state = Some p ->
  processLog logDecoder state log h =
    match Ev.arg event with
    | None => (Ret None, h)
    | Some a =>
        (Ret (Some state),
         <[state := mkPool (ticks p) (Ev.tick a) (Ev.liquidity a) (fee p)]> h)
    end.
Proof.
  intros Hd Hn Hp. unfold processLog, try_catch.
  rewrite (bind_eval _ _ _ _ _ (lift_eval _ _ _ Hd)).
  unfold handlers. rewrite Hn. simpl. unfold handleSwap.
  destruct (Ev.arg event) as [a|]; [|reflexivity].
  unfold mbind, M_bind, bind, update, mret, M_ret, ret.
  rewrite Hp, lookup_insert_eq, insert_insert_eq. reflexivity.
Qed.

Lemma processLog_swap_witness :
  processLog Ret theRef (Swap 7 9) (single onePosition) =
    (Ret None, single onePosition).
Proof.
  exact (processLog_swap Ret theRef (Swap 7 9) (Swap 7 9)
           (single onePosition) onePosition eq_refl eq_refl eq_refl).
Defined.

(** ** Mint and Burn on a sorted book that holds both ticks *)

Section Positions.

Context {Log : Type}.

Lemma updated_pair (arr : list TickSlot) (i j : nat) tb tt A B :
  strictly_sorted arr = true ->
  arr !! i = Some (TickObj tb) -> arr !! j = Some (TickObj tt) -> i <> j ->
  tickIdx A = tickIdx tb -> tickIdx B = tickIdx tt ->
  strictly_sorted (<[j := TickObj B]> (<[i := TickObj A]> arr)) = true /\
  <[j := TickObj B]> (<[i := TickObj A]> arr) !! i = Some (TickObj A) /\
  <[j := TickObj B]> (<[i := TickObj A]> arr) !! j = Some (TickObj B).
Proof.
  intros Hs Hi Hj Hij HA HB. split; [|split].
  - apply (strictly_sorted_insert _ j tt); [| |exact HB].
    + apply (strictly_sorted_insert _ i tb); assumption.
    + rewrite list_lookup_insert_ne by exact Hij. exact Hj.
  - rewrite list_lookup_insert_ne by (intros E; apply Hij; symmetry; exact E).
    apply list_lookup_insert_eq. exact (lookup_lt_Some _ _ _ Hi).
  - apply list_lookup_insert_eq. rewrite length_insert.
    exact (lookup_lt_Some _ _ _ Hj).
Qed.

Lemma updated_pair_twice (arr : list TickSlot) (i j : nat) (A B A' B' : TickSlot) :
  i <> j ->
  <[j := B']> (<[i := A']> (<[j := B]> (<[i := A]> arr))) =
  <[j := B']> (<[i := A']> arr).
Proof.
  intros Hij.
  rewrite (list_insert_insert_ne _ i j) by exact Hij.
  rewrite !list_insert_insert_eq. reflexivity.
Qed.

Lemma add_net_add (L1 L2 : Z) (t : TickState) :
  add_net L2 (add_net L1 t) = add_net (L1 + L2) t.
Proof.
  destruct t as [idx d u]. unfold add_net. simpl. destruct u; f_equal; lia.
Qed.

(** Burn followed by Mint of the same range and amount. *)
Lemma burn_mint_found (pool : PoolRef) (log : Log) h p (i j : nat) tb tt
    (bottomTick topTick L : Z) :
  h !! pool = Some p ->
  strictly_sorted (ticks p) = true ->
  ticks p !! i = Some (TickObj tb) -> tickIdx tb = bottomTick ->
  ticks p !! j = Some (TickObj tt) -> tickIdx tt = topTick ->
  i <> j ->
  exists h1,
    handleBurn (Burn bottomTick topTick L) pool log h = (Ret pool, h1) /\
    handleMint (Mint bottomTick topTick L) pool log h1 = (Ret pool, h).
Proof.
  intros Hp Hs Hi Hb Hj Ht Hij.
  eexists. split.
  - apply (handleBurn_found (Burn bottomTick topTick L) pool log h p i j tb tt
             Hp Hs Hi Hb Hj Ht Hij).
  - simpl.
    destruct (updated_pair (ticks p) i j tb tt (add_net (- L) tb)
                (add_net L tt) Hs Hi Hj Hij eq_refl eq_refl)
      as (Hs1 & Hi1 & Hj1).
    set (p1 := mkPool _ _ _ _).
    assert (Hp1 : <[pool := p1]> h !! pool = Some p1) by apply lookup_insert_eq.
    rewrite (handleMint_found (Mint bottomTick topTick L) pool log _ p1 i j
               _ _ Hp1 Hs1 Hi1 Hb Hj1 Ht Hij).
    rewrite insert_insert_eq. f_equal.
    rewrite <- (insert_id h pool p Hp) at 2. f_equal.
    subst p1. simpl.
    rewrite add_net_opp, add_net_opp_r.
    rewrite (updated_pair_twice _ i j) by exact Hij.
    destruct p as [arr ct cl f]. simpl in *. f_equal.
    + rewrite (list_insert_id _ i) by exact Hi.
      apply list_insert_id. exact Hj.
    + destruct ((ct <? topTick) && (ct >? bottomTick)); lia.
Qed.

(** Two Mints of one range add up. *)
Lemma mint_mint_found (pool : PoolRef) (log : Log) h p (i j : nat) tb tt
    (bottomTick topTick L1 L2 : Z) :
  h !! pool = Some p ->
  strictly_sorted (ticks p) = true ->
  ticks p !! i = Some (TickObj tb) -> tickIdx tb = bottomTick ->
  ticks p !! j = Some (TickObj tt) -> tickIdx tt = topTick ->
  i <> j ->
  exists h1,
    handleMint (Mint bottomTick topTick L1) pool log h = (Ret pool, h1) /\
    handleMint (Mint bottomTick topTick L2) pool log h1 =
      handleMint (Mint bottomTick topTick (L1 + L2)) pool log h.
Proof.
  intros Hp Hs Hi Hb Hj Ht Hij.
  eexists. split.
  - apply (handleMint_found (Mint bottomTick topTick L1) pool log h p i j tb tt
             Hp Hs Hi Hb Hj Ht Hij).
  - simpl.
    destruct (updated_pair (ticks p) i j tb tt (add_net L1 tb)
                (add_net (- L1) tt) Hs Hi Hj Hij eq_refl eq_refl)
      as (Hs1 & Hi1 & Hj1).
    set (p1 := mkPool _ _ _ _).
    assert (Hp1 : <[pool := p1]> h !! pool = Some p1) by apply lookup_insert_eq.
    rewrite (handleMint_found (Mint bottomTick topTick L2) pool log _ p1 i j
               _ _ Hp1 Hs1 Hi1 Hb Hj1 Ht Hij).
    rewrite (handleMint_found (Mint bottomTick topTick (L1 + L2)) pool log h p
               i j tb tt Hp Hs Hi Hb Hj Ht Hij).
    rewrite insert_insert_eq. f_equal. f_equal.
    subst p1. simpl.
    rewrite !add_net_add.
    rewrite (updated_pair_twice _ i j) by exact Hij.
    replace (- L1 + - L2) with (- (L1 + L2)) by lia.
    f_equal.
    destruct ((currentTick p <? topTick) && (currentTick p >? bottomTick)); lia.
Qed.

(** The sum of the net deltas at or below [c] after one delta has grown
    by [L]. *)
Lemma activeLiquidity_add_net (c L : Z) (arr : list TickSlot) :
  forall (i : nat) t,
    arr !! i = Some (TickObj t) ->
    activeLiquidity c (<[i := TickObj (add_net L t)]> arr) =
    activeLiquidity c arr + (if tickIdx t <=? c then L else 0).
Proof.
  induction arr as [|s rest IH]; intros [|i] t Hi; simpl in Hi;
    try discriminate.
  - injection Hi as ->. simpl.
    destruct (tickIdx t <=? c); [|lia].
    destruct (upper t); simpl; lia.
  - simpl. rewrite (IH i t Hi).
    destruct s as [t0|n]; [|reflexivity].
    destruct (tickIdx t0 <=? c); lia.
Qed.

End Positions.

(** X8. Mint on a sorted book that holds both ticks of the position:
    the amount is added to the net delta at [bottomTick] and taken from
    the one at [topTick], whichever way each tick is stored; no cell
    moves and the book stays sorted; [currentLiquidity] grows by the
    amount exactly when bottomTick < currentTick < topTick. *)
Theorem handleMint_accumulates {Log : Type} (event : Ev.LogDescription)
    (pool : PoolRef) (log : Log) (h : gmap positive PoolState)
    (p : PoolState) (i j : nat) (tb tt : TickState) :
  let L := Ev.amount (Ev.args event) in
  let bottomTick := Ev.bottomTick (Ev.args event) in
  let topTick := Ev.topTick (Ev.args event) in
  h !! pool = Some p ->
  strictly_sorted (ticks p) = true ->
  ticks p !! i = Some (TickObj tb) -> tickIdx tb = bottomTick ->
  ticks p !! j = Some (TickObj tt) -> tickIdx tt = topTick ->
  i <> j ->
  exists p',
    handleMint event pool log h = (Ret pool, <[pool := p']> h) /\
    ticks p' =
      <[j := TickObj (add_net (- L) tt)]>
        (<[i := TickObj (add_net L tb)]> (ticks p)) /\
    liquidityNet (TickObj (add_net L tb)) =
      (fun n => n + L) <$> liquidityNet (TickObj tb) /\
    liquidityNet (TickObj (add_net (- L) tt)) =
      (fun n => n - L) <$> liquidityNet (TickObj tt) /\
    strictly_sorted (ticks p') = true /\
    currentTick p' = currentTick p /\
    fee p' = fee p /\
    currentLiquidity p' =
      (if (bottomTick <? currentTick p) && (currentTick p <? topTick)
       then currentLiquidity p + L else currentLiquidity p).
Proof.
  intros L bottomTick topTick Hp Hs Hi Hb Hj Ht Hij.
  eexists. split.
  - exact (handleMint_found event pool log h p i j tb tt Hp Hs Hi Hb Hj Ht Hij).
  - split; [reflexivity|]. split; [apply liquidityNet_add_net|].
    split.
    { unfold liquidityNet, add_net. cbn.
      destruct (upper tt); f_equal; lia. }
    split.
    { exact (proj1 (updated_pair _ i j tb tt (add_net L tb) (add_net (- L) tt)
                      Hs Hi Hj Hij eq_refl eq_refl)). }
    split; [reflexivity|]. split; [reflexivity|].
    cbn [currentLiquidity]. fold L bottomTick topTick.
    rewrite Z.gtb_ltb, andb_comm. reflexivity.
Qed.

Lemma handleMint_accumulates_witness :
  exists p',
    handleMint (Mint (-100) 100 10) theRef tt (single onePosition) =
      (Ret theRef, <[theRef := p']> (single onePosition)) /\
    ticks p' =
      <[1%nat := TickObj (add_net (- 10) (mkTick 100 1000 true))]>
        (<[0%nat := TickObj (add_net 10 (mkTick (-100) 1000 false))]>
           (ticks onePosition)) /\
    liquidityNet (TickObj (add_net 10 (mkTick (-100) 1000 false))) =
      (fun n => n + 10) <$> liquidityNet (TickObj (mkTick (-100) 1000 false)) /\
    liquidityNet (TickObj (add_net (- 10) (mkTick 100 1000 true))) =
      (fun n => n - 10) <$> liquidityNet (TickObj (mkTick 100 1000 true)) /\
    strictly_sorted (ticks p') = true /\
    currentTick p' = currentTick onePosition /\
    fee p' = fee onePosition /\
    currentLiquidity p' =
      (if (-100 <? currentTick onePosition) && (currentTick onePosition <? 100)
       then currentLiquidity onePosition + 10
       else currentLiquidity onePosition).
Proof.
  apply (handleMint_accumulates (Mint (-100) 100 10) theRef tt
           (single onePosition) onePosition 0%nat 1%nat
           (mkTick (-100) 1000 false) (mkTick 100 1000 true));
    try reflexivity.
  discriminate.
Defined.

(** X9. Burn on a sorted book that holds both ticks of the position:
    the amount is taken from the net delta at [bottomTick] and added to
    the one at [topTick]; both cells stay in the book, also with delta 0;
    [currentLiquidity] shrinks by the amount exactly when
    bottomTick < currentTick < topTick, with no check that it stays
    non-negative. *)
Theorem handleBurn_releases {Log : Type} (event : Ev.LogDescription)
    (pool : PoolRef) (log : Log) (h : gmap positive PoolState)
    (p : PoolState) (i j : nat) (tb tt : TickState) :
  let L := Ev.amount (Ev.args event) in
  let bottomTick := Ev.bottomTick (Ev.args event) in
  let topTick := Ev.topTick (Ev.args event) in
  h !! pool = Some p ->
  strictly_sorted (ticks p) = true ->
  ticks p !! i = Some (TickObj tb) -> tickIdx tb = bottomTick ->
  ticks p !! j = Some (TickObj tt) -> tickIdx tt = topTick ->
  i <> j ->
  exists p',
    handleBurn event pool log h = (Ret pool, <[pool := p']> h) /\
    ticks p' =
      <[j := TickObj (add_net L tt)]>
        (<[i := TickObj (add_net (- L) tb)]> (ticks p)) /\
    strictly_sorted (ticks p') = true /\
    currentTick p' = currentTick p /\
    fee p' = fee p /\
    currentLiquidity p' =
      (if (bottomTick <? currentTick p) && (currentTick p <? topTick)
       then currentLiquidity p - L else currentLiquidity p).
Proof.
  intros L bottomTick topTick Hp Hs Hi Hb Hj Ht Hij.
  eexists. split.
  - exact (handleBurn_found event pool log h p i j tb tt Hp Hs Hi Hb Hj Ht Hij).
  - split; [reflexivity|]. split.
    { exact (proj1 (updated_pair _ i j tb tt (add_net (- L) tb) (add_net L tt)
                      Hs Hi Hj Hij eq_refl eq_refl)). }
    split; [reflexivity|]. split; [reflexivity|].
    cbn [currentLiquidity]. fold L bottomTick topTick.
    rewrite Z.gtb_ltb, andb_comm. reflexivity.
Qed.

Lemma handleBurn_releases_witness :
  exists p',
    handleBurn (Burn (-100) 100 1500) theRef tt (single onePosition) =
      (Ret theRef, <[theRef := p']> (single onePosition)) /\
    ticks p' =
      <[1%nat := TickObj (add_net 1500 (mkTick 100 1000 true))]>
        (<[0%nat := TickObj (add_net (- 1500) (mkTick (-100) 1000 false))]>
           (ticks onePosition)) /\
    strictly_sorted (ticks p') = true /\
    currentTick p' = currentTick onePosition /\
    fee p' = fee onePosition /\
    currentLiquidity p' =
      (if (-100 <? currentTick onePosition) && (currentTick onePosition <? 100)
       then currentLiquidity onePosition - 1500
       else currentLiquidity onePosition).
Proof.
  apply (handleBurn_releases (Burn (-100) 100 1500) theRef tt
           (single onePosition) onePosition 0%nat 1%nat
           (mkTick (-100) 1000 false) (mkTick 100 1000 true));
    try reflexivity.
  discriminate.
Defined.

(** X10. On a sorted book that holds both ticks of the range, Mint
    followed by Burn of the same range and amount gives the store back
    as it was, and so does Burn followed by Mint. *)
Theorem mint_burn_round_trip {Log : Type} (pool : PoolRef) (log : Log)
    (h : gmap positive PoolState) (p : PoolState) (i j : nat)
    (tb tt : TickState) (bottomTick topTick L : Z) :
  h !! pool = Some p ->
  strictly_sorted (ticks p) = true ->
  ticks p !! i = Some (TickObj tb) -> tickIdx tb = bottomTick ->
  ticks p !! j = Some (TickObj tt) -> tickIdx tt = topTick ->
  i <> j ->
  (exists h1,
     handleMint (Mint bottomTick topTick L) pool log h = (Ret pool, h1) /\
     handleBurn (Burn bottomTick topTick L) pool log h1 = (Ret pool, h)) /\
  (exists h1,
     handleBurn (Burn bottomTick topTick L) pool log h = (Ret pool, h1) /\
     handleMint (Mint bottomTick topTick L) pool log h1 = (Ret pool, h)).
Proof.
  intros Hp Hs Hi Hb Hj Ht Hij. split.
  - exact (mint_burn_found pool log h p i j tb tt bottomTick topTick L
             Hp Hs Hi Hb Hj Ht Hij).
  - exact (burn_mint_found pool log h p i j tb tt bottomTick topTick L
             Hp Hs Hi Hb Hj Ht Hij).
Qed.

Lemma mint_burn_round_trip_witness :
  (exists h1,
     handleMint (Mint (-100) 100 7) theRef tt (single onePosition) =
       (Ret theRef, h1) /\
     handleBurn (Burn (-100) 100 7) theRef tt h1 =
       (Ret theRef, single onePosition)) /\
  (exists h1,
     handleBurn (Burn (-100) 100 7) theRef tt (single onePosition) =
       (Ret theRef, h1) /\
     handleMint (Mint (-100) 100 7) theRef tt h1 =
       (Ret theRef, single onePosition)).
Proof.
  apply (mint_burn_round_trip theRef tt (single onePosition) onePosition
           0%nat 1%nat (mkTick (-100) 1000 false) (mkTick 100 1000 true)
           (-100) 100 7); try reflexivity.
  discriminate.
Defined.

(** X11. On a sorted book that holds both ticks of the range, two Mints
    of the range with amounts L1 and L2 leave the store that one Mint
    with L1 + L2 leaves. *)
Theorem mint_amounts_add_up {Log : Type} (pool : PoolRef) (log : Log)
    (h : gmap positive PoolState) (p : PoolState) (i j : nat)
    (tb tt : TickState) (bottomTick topTick L1 L2 : Z) :
  h !! pool = Some p ->
  strictly_sorted (ticks p) = true ->
  ticks p !! i = Some (TickObj tb) -> tickIdx tb = bottomTick ->
  ticks p !! j = Some (TickObj tt) -> tickIdx tt = topTick ->
  i <> j ->
  exists h1,
    handleMint (Mint bottomTick topTick L1) pool log h = (Ret pool, h1) /\
    handleMint (Mint bottomTick topTick L2) pool log h1 =
      handleMint (Mint bottomTick topTick (L1 + L2)) pool log h.
Proof.
  intros Hp Hs Hi Hb Hj Ht Hij.
  exact (mint_mint_found pool log h p i j tb tt bottomTick topTick L1 L2
           Hp Hs Hi Hb Hj Ht Hij).
Qed.

Lemma mint_amounts_add_up_witness :
  exists h1,
    handleMint (Mint (-100) 100 7) theRef tt (single onePosition) =
      (Ret theRef, h1) /\
    handleMint (Mint (-100) 100 5) theRef tt h1 =
      handleMint (Mint (-100) 100 (7 + 5)) theRef tt (single onePosition).
Proof.
  apply (mint_amounts_add_up theRef tt (single onePosition) onePosition
           0%nat 1%nat (mkTick (-100) 1000 false) (mkTick 100 1000 true)
           (-100) 100 7 5); try reflexivity.
  discriminate.
Defined.

Section LiquiditySum.

Context {Log : Type}.

Lemma activeLiquidity_pair (c L : Z) (arr : list TickSlot) (i j : nat) tb tt :
  arr !! i = Some (TickObj tb) -> arr !! j = Some (TickObj tt) -> i <> j ->
  activeLiquidity c
    (<[j := TickObj (add_net (- L) tt)]> (<[i := TickObj (add_net L tb)]> arr)) =
  activeLiquidity c arr
  + (if tickIdx tb <=? c then L else 0)
  - (if tickIdx tt <=? c then L else 0).
Proof.
  intros Hi Hj Hij.
  rewrite (activeLiquidity_add_net c (- L) _ j tt)
    by (rewrite list_lookup_insert_ne by exact Hij; exact Hj).
  rewrite (activeLiquidity_add_net c L _ i tb Hi).
  destruct (tickIdx tt <=? c); lia.
Qed.

End LiquiditySum.

(** X12. On a sorted book that holds both ticks of a range with
    bottomTick < topTick, and whose price is not at [bottomTick], Mint
    and Burn keep the equation of [currentLiquidity] with the sum of the
    net deltas at or below [currentTick]. *)
Theorem mint_burn_keep_liquidity_sum {Log : Type} (pool : PoolRef) (log : Log)
    (h : gmap positive PoolState) (p : PoolState) (i j : nat)
    (tb tt : TickState) (bottomTick topTick L : Z) :
  h !! pool = Some p ->
  strictly_sorted (ticks p) = true ->
  ticks p !! i = Some (TickObj tb) -> tickIdx tb = bottomTick ->
  ticks p !! j = Some (TickObj tt) -> tickIdx tt = topTick ->
  bottomTick < topTick ->
  currentTick p <> bottomTick ->
  liquidity_sum_holds p ->
  (exists p',
     handleMint (Mint bottomTick topTick L) pool log h =
       (Ret pool, <[pool := p']> h) /\
     liquidity_sum_holds p') /\
  (exists p',
     handleBurn (Burn bottomTick topTick L) pool log h =
       (Ret pool, <[pool := p']> h) /\
     liquidity_sum_holds p').
Proof.
  intros Hp Hs Hi Hb Hj Ht Hlt Hc Hsum.
  assert (Hij : i <> j).
  { intros ->. rewrite Hi in Hj. injection Hj as ->. lia. }
  unfold liquidity_sum_holds in *. split.
  - eexists. split.
    + exact (handleMint_found (Mint bottomTick topTick L) pool log h p i j
               tb tt Hp Hs Hi Hb Hj Ht Hij).
    + simpl. rewrite (activeLiquidity_pair _ L _ i j tb tt Hi Hj Hij).
      rewrite Hb, Ht, Hsum.
      destruct (currentTick p <? topTick) eqn:E1,
               (currentTick p >? bottomTick) eqn:E2,
               (bottomTick <=? currentTick p) eqn:E3,
               (topTick <=? currentTick p) eqn:E4; simpl;
        rewrite ?Z.gtb_ltb in *;
        rewrite ?Z.ltb_lt, ?Z.ltb_ge, ?Z.leb_le, ?Z.leb_gt in *; lia.
  - eexists. split.
    + exact (handleBurn_found (Burn bottomTick topTick L) pool log h p i j
               tb tt Hp Hs Hi Hb Hj Ht Hij).
    + simpl.
      replace (add_net L tt) with (add_net (- - L) tt)
        by (rewrite Z.opp_involutive; reflexivity).
      rewrite (activeLiquidity_pair _ (- L) _ i j tb tt Hi Hj Hij).
      rewrite Hb, Ht, Hsum.
      destruct (currentTick p <? topTick) eqn:E1,
               (currentTick p >? bottomTick) eqn:E2,
               (bottomTick <=? currentTick p) eqn:E3,
               (topTick <=? currentTick p) eqn:E4; simpl;
        rewrite ?Z.gtb_ltb in *;
        rewrite ?Z.ltb_lt, ?Z.ltb_ge, ?Z.leb_le, ?Z.leb_gt in *; lia.
Qed.

Lemma mint_burn_keep_liquidity_sum_witness :
  (exists p',
     handleMint (Mint (-100) 100 7) theRef tt (single onePosition) =
       (Ret theRef, <[theRef := p']> (single onePosition)) /\
     liquidity_sum_holds p') /\
  (exists p',
     handleBurn (Burn (-100) 100 7) theRef tt (single onePosition) =
       (Ret theRef, <[theRef := p']> (single onePosition)) /\
     liquidity_sum_holds p').
Proof.
  apply (mint_burn_keep_liquidity_sum theRef tt (single onePosition)
           onePosition 0%nat 1%nat (mkTick (-100) 1000 false)
           (mkTick 100 1000 true) (-100) 100 7); try reflexivity.
  simpl. lia.
Defined.

(** X13. With the price exactly at [bottomTick], Mint of a non-zero
    amount adds the amount to the sum of the net deltas at or below
    [currentTick] and leaves [currentLiquidity] as it was: a book in which
    the two were equal is left with the two different. *)
Theorem handleMint_at_bottomTick {Log : Type} (pool : PoolRef) (log : Log)
    (h : gmap positive PoolState) (p : PoolState) (i j : nat)
    (tb tt : TickState) (bottomTick topTick L : Z) :
  h !! pool = Some p ->
  strictly_sorted (ticks p) = true ->
  ticks p !! i = Some (TickObj tb) -> tickIdx tb = bottomTick ->
  ticks p !! j = Some (TickObj tt) -> tickIdx tt = topTick ->
  bottomTick < topTick ->
  currentTick p = bottomTick ->
  L <> 0 ->
  liquidity_sum_holds p ->
  exists p',
    handleMint (Mint bottomTick topTick L) pool log h =
      (Ret pool, <[pool := p']> h) /\
    currentLiquidity p' = currentLiquidity p /\
    activeLiquidity (currentTick p') (ticks p') =
      activeLiquidity (currentTick p) (ticks p) + L /\
    ~ liquidity_sum_holds p'.
Proof.
  intros Hp Hs Hi Hb Hj Ht Hlt Hc HL Hsum.
  assert (Hij : i <> j).
  { intros ->. rewrite Hi in Hj. injection Hj as ->. lia. }
  unfold liquidity_sum_holds in *.
  eexists. split.
  - exact (handleMint_found (Mint bottomTick topTick L) pool log h p i j
             tb tt Hp Hs Hi Hb Hj Ht Hij).
  - simpl. rewrite (activeLiquidity_pair _ L _ i j tb tt Hi Hj Hij).
    rewrite Hb, Ht, Hc.
    assert (E2 : (bottomTick >? bottomTick) = false)
      by (rewrite Z.gtb_ltb; apply Z.ltb_irrefl).
    assert (E3 : (bottomTick <=? bottomTick) = true) by apply Z.leb_refl.
    assert (E4 : (topTick <=? bottomTick) = false) by (apply Z.leb_gt; lia).
    rewrite E2, E3, E4, andb_false_r. rewrite Hc in Hsum.
    split; [reflexivity|]. split; lia.
Qed.

Lemma handleMint_at_bottomTick_witness :
  exists p',
    handleMint (Mint (-100) 100 10) theRef tt (single atLowerBound) =
      (Ret theRef, <[theRef := p']> (single atLowerBound)) /\
    currentLiquidity p' = currentLiquidity atLowerBound /\
    activeLiquidity (currentTick p') (ticks p') =
      activeLiquidity (currentTick atLowerBound) (ticks atLowerBound) + 10 /\
    ~ liquidity_sum_holds p'.
Proof.
  apply (handleMint_at_bottomTick theRef tt (single atLowerBound)
           atLowerBound 0%nat 1%nat (mkTick (-100) 1000 false)
           (mkTick 100 1000 true) (-100) 100 10); try reflexivity.
  discriminate.
Defined.

(** ** When Burn returns *)

Section BurnOutcome.

Context {Log : Type}.

Lemma at_index_insert_object (arr : list TickSlot) (n : nat) (j : Z) x t :
  at_index arr j = Some (TickObj t) ->
  exists t', at_index (<[n := TickObj x]> arr) j = Some (TickObj t').
Proof.
  intros Hj. apply at_index_Some in Hj as [Hj0 Hj].
  destruct (decide (n = Z.to_nat j)) as [->|Hne].
  - exists x. apply at_index_Some. split; [exact Hj0|].
    apply list_lookup_insert_eq. exact (lookup_lt_Some _ _ _ Hj).
  - exists t. apply at_index_Some. split; [exact Hj0|].
    rewrite list_lookup_insert_ne by exact Hne. exact Hj.
Qed.

Lemma handleBurn_both_found (event : Ev.LogDescription) (pool : PoolRef)
    (log : Log) h p (i j : Z) ti tj :
  h !! pool = Some p ->
  getTickIdx (Ev.bottomTick (Ev.args event)) (ticks p) = Ret i ->
  getTickIdx (Ev.topTick (Ev.args event)) (ticks p) = Ret j ->
  at_index (ticks p) i = Some (TickObj ti) ->
  at_index (ticks p) j = Some (TickObj tj) ->
  fst (handleBurn event pool log h) = Ret pool.
Proof.
  intros Hp Hgi Hgj Hi Hj. unfold handleBurn.
  set (L := Ev.amount (Ev.args event)).
  rewrite (bind_eval _ _ _ _ _ (read_eval _ _ _ Hp)).
  rewrite (bind_eval _ _ _ _ _ (lift_eval _ _ _ Hgi)).
  rewrite (bind_eval _ _ _ _ _ (lift_eval _ _ _ Hgj)).
  rewrite (bind_eval _ _ _ _ _ (read_upper_eval _ _ _ _ _ Hp Hi)).
  rewrite (bind_eval _ _ _ _ _ (sub_net_branches _ _ L _ _ _ Hp Hi)).
  set (p1 := set_ticks _ p).
  assert (Hp1 : <[pool := p1]> h !! pool = Some p1) by apply lookup_insert_eq.
  destruct (at_index_insert_object (ticks p) (Z.to_nat i) j
              (add_net (- L) ti) tj Hj) as [tj1 Hj1].
  destruct (at_index_insert_object (ticks p) (Z.to_nat i) i
              (add_net (- L) ti) ti Hi) as [ti1 Hi1].
  rewrite (bind_eval _ _ _ _ _ (read_upper_eval _ _ _ _ _ Hp1 Hj1)).
  rewrite (bind_eval _ _ _ _ _ (add_net_branches _ _ L _ _ _ Hp1 Hj1)).
  rewrite insert_insert_eq.
  set (p2 := set_ticks _ p1).
  assert (Hp2 : <[pool := p2]> h !! pool = Some p2) by apply lookup_insert_eq.
  destruct (at_index_insert_object (ticks p1) (Z.to_nat j) i
              (add_net L tj1) ti1 Hi1) as [ti2 Hi2].
  destruct (at_index_insert_object (ticks p1) (Z.to_nat j) j
              (add_net L tj1) tj1 Hj1) as [tj2 Hj2].
  rewrite (bind_eval _ _ _ _ _ (liquidityDelta_is_zero_eval _ _ _ _ _ Hp2 Hi2)).
  rewrite (bind_eval _ _ _ _ _ (slice_branches _ _ _ _ _ Hp2)).
  rewrite (bind_eval _ _ _ _ _ (liquidityDelta_is_zero_eval _ _ _ _ _ Hp2 Hj2)).
  rewrite (bind_eval _ _ _ _ _ (slice_branches _ _ _ _ _ Hp2)).
  rewrite (bind_eval _ _ _ _ _ (read_eval _ _ _ Hp2)).
  destruct (_ && _).
  - rewrite (bind_eval _ _ _ _ _ (update_eval _ _ _ _ Hp2)). reflexivity.
  - reflexivity.
Qed.

Lemma handleBurn_top_not_found (event : Ev.LogDescription) (pool : PoolRef)
    (log : Log) h p (i : Z) ti :
  h !! pool = Some p ->
  getTickIdx (Ev.bottomTick (Ev.args event)) (ticks p) = Ret i ->
  at_index (ticks p) i = Some (TickObj ti) ->
  getTickIdx (Ev.topTick (Ev.args event)) (ticks p) = Ret (-1) ->
  handleBurn event pool log h =
    (Throw TypeError,
     <[pool :=
         set_ticks
           (<[Z.to_nat i :=
                TickObj (add_net (- Ev.amount (Ev.args event)) ti)]> (ticks p))
           p]> h).
Proof.
  intros Hp Hgi Hi Hgj. unfold handleBurn.
  rewrite (bind_eval _ _ _ _ _ (read_eval _ _ _ Hp)).
  rewrite (bind_eval _ _ _ _ _ (lift_eval _ _ _ Hgi)).
  rewrite (bind_eval _ _ _ _ _ (lift_eval _ _ _ Hgj)).
  rewrite (bind_eval _ _ _ _ _ (read_upper_eval _ _ _ _ _ Hp Hi)).
  rewrite (bind_eval _ _ _ _ _ (sub_net_branches _ _ _ _ _ _ Hp Hi)).
  apply bind_throw. unfold read_upper.
  rewrite (bind_eval _ _ _ _ _
             (read_eval _ _ _ (lookup_insert_eq h pool _))).
  reflexivity.
Qed.

End BurnOutcome.

(** X14. Burn returns exactly when the search finds both ticks, on any
    book.  When it does not find [bottomTick] it throws TypeError and
    has written nothing; when it finds [bottomTick] and not [topTick] it
    throws TypeError after the delta at [bottomTick] has been changed. *)
Theorem handleBurn_outcome {Log : Type} (event : Ev.LogDescription)
    (pool : PoolRef) (log : Log) (h : gmap positive PoolState)
    (p : PoolState) :
  let L := Ev.amount (Ev.args event) in
  let bottom := getTickIdx (Ev.bottomTick (Ev.args event)) (ticks p) in
  let top := getTickIdx (Ev.topTick (Ev.args event)) (ticks p) in
  h !! pool = Some p ->
  (bottom <> Ret (-1) -> top <> Ret (-1) ->
   fst (handleBurn event pool log h) = Ret pool) /\
  (bottom = Ret (-1) ->
   handleBurn event pool log h = (Throw TypeError, h)) /\
  (forall i, bottom = Ret i -> i <> -1 -> top = Ret (-1) ->
   exists t,
     at_index (ticks p) i = Some (TickObj t) /\
     handleBurn event pool log h =
       (Throw TypeError,
        <[pool :=
            set_ticks (<[Z.to_nat i := TickObj (add_net (- L) t)]> (ticks p)) p]>
          h)).
Proof.
  intros L bottom top Hp.
  destruct (getTickIdx_returns (Ev.bottomTick (Ev.args event)) (ticks p))
    as (i & Hgi & Hi).
  destruct (getTickIdx_returns (Ev.topTick (Ev.args event)) (ticks p))
    as (j & Hgj & Hj).
  fold bottom in Hgi. fold top in Hgj. split; [|split].
  - intros Hb Ht.
    destruct Hi as [->|(ti & Hi & _)]; [contradiction|].
    destruct Hj as [->|(tj & Hj & _)]; [contradiction|].
    exact (handleBurn_both_found event pool log h p i j ti tj Hp Hgi Hgj Hi Hj).
  - intros Hb. exact (handleBurn_bottom_not_found event pool log h p Hp Hb).
  - intros i' Hb Hne Ht. rewrite Hgi in Hb. injection Hb as <-.
    destruct Hi as [->|(ti & Hi & _)]; [contradiction|].
    exists ti. split; [exact Hi|].
    exact (handleBurn_top_not_found event pool log h p i ti Hp Hgi Hi Ht).
Qed.

Lemma handleBurn_outcome_witness :
  (getTickIdx (-100) (ticks onePosition) <> Ret (-1) ->
   getTickIdx 100 (ticks onePosition) <> Ret (-1) ->
   fst (handleBurn (Burn (-100) 100 7) theRef tt (single onePosition)) =
     Ret theRef) /\
  (getTickIdx (-100) (ticks onePosition) = Ret (-1) ->
   handleBurn (Burn (-100) 100 7) theRef tt (single onePosition) =
     (Throw TypeError, single onePosition)) /\
  (forall i, getTickIdx (-100) (ticks onePosition) = Ret i -> i <> -1 ->
   getTickIdx 100 (ticks onePosition) = Ret (-1) ->
   exists t,
     at_index (ticks onePosition) i = Some (TickObj t) /\
     handleBurn (Burn (-100) 100 7) theRef tt (single onePosition) =
       (Throw TypeError,
        <[theRef :=
            set_ticks
              (<[Z.to_nat i := TickObj (add_net (- 7) t)]> (ticks onePosition))
              onePosition]> (single onePosition))).
Proof.
  apply (handleBurn_outcome (Burn (-100) 100 7) theRef tt
           (single onePosition) onePosition).
  reflexivity.
Defined.

(** X15. From a fresh pool no tick object ever enters the book: in every
    book reached, every cell of [ticks] is a bare number, the search
    finds no tick, and a Burn event is answered [null] with nothing
    written. *)
Theorem fresh_pool_never_holds_a_tick (p : PoolState)
    (event : Ev.LogDescription) (state : PoolRef) :
  reachable p ->
  Ev.name event = "Burn" ->
  Forall is_number (ticks p) /\
  (forall tick, getTickIdx tick (ticks p) = Ret (-1)) /\
  processLog Ret state event {[ state := p ]} =
    (Ret None, {[ state := p ]}).
Proof.
  intros Hreach Hn.
  pose proof (reachable_ticks_are_numbers p Hreach) as Hnum.
  split; [exact Hnum|]. split.
  - intros tick. apply getTickIdx_numbers. exact Hnum.
  - assert (Hh : handlers (Log:=Ev.LogDescription) (Ev.name event)
                 = Some handleBurn) by (rewrite Hn; reflexivity).
    apply (processLog_handler_failure Ret state event event handleBurn
             TypeError _ _ eq_refl Hh).
    apply (handleBurn_bottom_not_found event state event _ p).
    + apply lookup_singleton_eq.
    + apply getTickIdx_numbers. exact Hnum.
Qed.

Lemma fresh_pool_never_holds_a_tick_witness :
  Forall is_number [TickNum (-100); TickNum 100] /\
  (forall tick, getTickIdx tick [TickNum (-100); TickNum 100] = Ret (-1)) /\
  processLog Ret theRef (Burn (-100) 100 7)
    {[ theRef := mkPool [TickNum (-100); TickNum 100] 0 1000 500 ]} =
    (Ret None, {[ theRef := mkPool [TickNum (-100); TickNum 100] 0 1000 500 ]}).
Proof.
  apply (fresh_pool_never_holds_a_tick
           (mkPool [TickNum (-100); TickNum 100] 0 1000 500)
           (Burn (-100) 100 7) theRef).
  - apply (reachable_event (freshPool 0 500) _ (Mint (-100) 100 1000)
             theRef theRef
             (single (mkPool [TickNum (-100); TickNum 100] 0 1000 500)));
      [apply reachable_fresh | reflexivity | reflexivity | reflexivity].
  - reflexivity.
Defined.

(** ** getTickIdx on any array *)

(** X16. On every array, sorted or not, well typed or not, [getTickIdx]
    returns without throwing: the answer is [-1] or a position inside the
    array that holds a tick object with the index looked for; it is [-1]
    whenever no tick object of the array has that index. *)
Theorem getTickIdx_never_wrong (tick : Z) (arr : list TickSlot) :
  (exists i,
     getTickIdx tick arr = Ret i /\
     (i = -1 \/
      0 <= i < Z.of_nat (length arr) /\
      exists t, at_index arr i = Some (TickObj t) /\ tickIdx t = tick)) /\
  ((forall t, TickObj t ∈ arr -> tickIdx t <> tick) ->
   getTickIdx tick arr = Ret (-1)).
Proof.
  destruct (getTickIdx_returns tick arr) as (i & Hret & Hi). split.
  - exists i. split; [exact Hret|].
    destruct Hi as [->|(t & Hat & Ht)]; [left; reflexivity|].
    right. split; [|eauto].
    apply at_index_Some in Hat as [H0 Hat].
    pose proof (lookup_lt_Some _ _ _ Hat). lia.
  - intros Hnone. destruct Hi as [->|(t & Hat & Ht)]; [exact Hret|].
    apply at_index_Some in Hat as [_ Hat].
    apply list_elem_of_lookup_2 in Hat. exfalso. exact (Hnone t Hat Ht).
Qed.

Lemma getTickIdx_never_wrong_witness :
  getTickIdx 3 [TickNum 3; TickObj (mkTick 9 1 false); TickObj (mkTick 2 1 true)]
    = Ret (-1).
Proof.
  apply (proj2 (getTickIdx_never_wrong 3
                  [TickNum 3; TickObj (mkTick 9 1 false);
                   TickObj (mkTick 2 1 true)])).
  intros t Ht.
  apply list_elem_of_In in Ht. simpl in Ht.
  destruct Ht as [Ht|[Ht|[Ht|[]]]]; try discriminate;
    injection Ht as <-; simpl; lia.
Defined.

(** ** The pricing functions at their edges *)

(** X17. [getSellPrice] never returns a price.  For a positive amount
    the first loop body throws, ReferenceError once
    [getSqrtRatioAtTick] has returned; for an amount that is not positive
    no body is entered and the division by the zero output throws. *)
Theorem getSellPrice_never_returns {Price : Type}
    (getSqrtRatioAtTick : Z -> Outcome Price)
    (zero_primitive : JsError + string) (poolState : PoolState)
    (srcAmount : Z) :
  (forall v,
     fst (getSellPrice getSqrtRatioAtTick zero_primitive poolState srcAmount)
       <> Ret v) /\
  (forall sqrtRatio,
     0 < srcAmount ->
     getSqrtRatioAtTick (currentTick poolState) = Ret sqrtRatio ->
     getSellPrice getSqrtRatioAtTick zero_primitive poolState srcAmount =
       (Throw ReferenceError, 1%nat)) /\
  (srcAmount <= 0 ->
   exists e,
     getSellPrice getSqrtRatioAtTick zero_primitive poolState srcAmount =
       (Throw e, 0%nat)).
Proof.
  unfold getSellPrice, getSellPrice_loop. split; [|split].
  - intros v. destruct (srcAmount >? 0).
    + destruct (getSqrtRatioAtTick _); discriminate.
    + destruct (divide_throws zero_primitive srcAmount AccZERO) as [e ->].
      discriminate.
  - intros s Hpos Hs.
    assert (E : (srcAmount >? 0) = true)
      by (rewrite Z.gtb_ltb; apply Z.ltb_lt; exact Hpos).
    rewrite E, Hs. reflexivity.
  - intros Hle.
    assert (E : (srcAmount >? 0) = false)
      by (rewrite Z.gtb_ltb; apply Z.ltb_ge; exact Hle).
    rewrite E.
    destruct (divide_throws zero_primitive srcAmount AccZERO) as [e ->].
    eexists. reflexivity.
Qed.

Lemma getSellPrice_never_returns_witness :
  getSellPrice (fun _ : Z => Ret tt) (inr "0") onePosition 5 =
    (Throw ReferenceError, 1%nat) /\
  exists e,
    getSellPrice (fun _ : Z => Ret tt) (inr "0") onePosition 0 =
      (Throw e, 0%nat).
Proof.
  split.
  - apply (proj1 (proj2 (getSellPrice_never_returns (fun _ : Z => Ret tt)
                           (inr "0") onePosition 5)) tt);
      [lia | reflexivity].
  - apply (proj2 (proj2 (getSellPrice_never_returns (fun _ : Z => Ret tt)
                           (inr "0") onePosition 0))). lia.
Defined.

(** X18. [getBuyPrice] with an amount that is not positive enters no
    loop body, calls neither callee and throws on the division by the
    zero output: it answers no price for the amount 0. *)
Theorem getBuyPrice_nothing_to_buy {Price Fn StepIn StepOut : Type}
    (getSqrtRatioAtTick : Z -> Outcome Price) (getNextSqrtPriceFromInput : Fn)
    (computeSwapStep :
       Price -> Fn -> Z -> Z -> Z -> Outcome (Price * StepIn * StepOut))
    (minus : Z -> StepIn -> JsError + Z)
    (text_of : StepOut -> JsError + string)
    (zero_primitive : JsError + string) (maxLength : nat)
    (fuel : nat) (poolState : PoolState) (destAmount : Z) :
  destAmount <= 0 ->
  exists e,
    getBuyPrice getSqrtRatioAtTick getNextSqrtPriceFromInput computeSwapStep
      minus text_of zero_primitive maxLength fuel poolState destAmount =
      (Throw e, 0%nat).
Proof.
  intros Hle. unfold getBuyPrice.
  assert (E : (destAmount >? 0) = false)
    by (rewrite Z.gtb_ltb; apply Z.ltb_ge; exact Hle).
  destruct (divide_throws zero_primitive destAmount AccZERO) as [e He].
  exists e. destruct fuel; simpl; rewrite E, He; reflexivity.
Qed.

Lemma getBuyPrice_nothing_to_buy_witness :
  exists e,
    getBuyPrice (fun _ : Z => Ret tt) tt sampleStep sampleMinus sampleText
      (inr "0") 64 5 noTicks 0 = (Throw e, 0%nat).
Proof.
  apply (getBuyPrice_nothing_to_buy (fun _ : Z => Ret tt) tt sampleStep
           sampleMinus sampleText (inr "0") 64 5 noTicks 0).
  lia.
Defined.



(** ** Pool identifiers, price queries, the pair registry *)

Section AlgebraFacts.

Variable toLowerCase : string -> string.
Variable wrapETH : Tk.Token -> Z -> Tk.Token.
Variable network : Z.
Variable dexKey : string.

Lemma ltb_flip (x y : string) :
  x <> y -> String.ltb x y = negb (String.ltb y x).
Proof.
  intros Hne. unfold String.ltb. rewrite String.compare_antisym.
  destruct (String.compare y x) eqn:Hc; try reflexivity.
  apply String.compare_eq_iff in Hc. congruence.
Qed.

Lemma sort_two (x y : string) :
  x <> y ->
  sort_by byAddress [x; y] = if String.ltb x y then [x; y] else [y; x].
Proof.
  intros Hne. unfold sort_by, byAddress. simpl.
  rewrite (ltb_flip x y Hne).
  destruct (String.ltb y x); reflexivity.
Qed.

Lemma poolIdentifierOf_two (from to : Tk.Token) :
  toLowerCase (Tk.address from) <> toLowerCase (Tk.address to) ->
  poolIdentifierOf toLowerCase dexKey from to =
    if String.ltb (toLowerCase (Tk.address from)) (toLowerCase (Tk.address to))
    then dexKey +:+ "_" +:+ (toLowerCase (Tk.address from) +:+ "_" +:+
                             toLowerCase (Tk.address to))
    else dexKey +:+ "_" +:+ (toLowerCase (Tk.address to) +:+ "_" +:+
                             toLowerCase (Tk.address from)).
Proof.
  intros Hne. unfold poolIdentifierOf. rewrite (sort_two _ _ Hne).
  destruct (String.ltb _ _); reflexivity.
Qed.

Lemma poolIdentifierOf_sym (from to : Tk.Token) :
  toLowerCase (Tk.address from) <> toLowerCase (Tk.address to) ->
  poolIdentifierOf toLowerCase dexKey from to =
  poolIdentifierOf toLowerCase dexKey to from.
Proof.
  intros Hne.
  rewrite (poolIdentifierOf_two from to Hne).
  rewrite (poolIdentifierOf_two to from) by congruence.
  rewrite (ltb_flip _ _ Hne).
  destruct (String.ltb (toLowerCase (Tk.address to)) _); reflexivity.
Qed.

End AlgebraFacts.

(** X20. The pool identifier does not depend on the order of the two
    tokens: [getPoolIdentifiers] answers the same for (src, dest) and
    (dest, src).  It answers no identifier when the two wrapped
    addresses agree up to case, and else the single identifier
    dexKey_low_high, the lower-cased addresses in ascending order. *)
Theorem getPoolIdentifiers_order_free (toLowerCase : string -> string)
    (wrapETH : Tk.Token -> Z -> Tk.Token) (network : Z) (dexKey : string)
    (srcToken destToken : Tk.Token) :
  let ids := getPoolIdentifiers toLowerCase wrapETH network dexKey in
  let x := toLowerCase (Tk.address (wrapETH srcToken network)) in
  let y := toLowerCase (Tk.address (wrapETH destToken network)) in
  ids srcToken destToken = ids destToken srcToken /\
  ids srcToken destToken =
    (if String.eqb x y then []
     else if String.ltb x y
          then [dexKey +:+ "_" +:+ (x +:+ "_" +:+ y)]
          else [dexKey +:+ "_" +:+ (y +:+ "_" +:+ x)]).
Proof.
  intros ids x y. subst ids. unfold getPoolIdentifiers. fold x y.
  rewrite (String.eqb_sym y x).
  destruct (String.eqb_spec x y) as [Heq|Hne].
  - split; reflexivity.
  - split.
    + f_equal. apply poolIdentifierOf_sym. exact Hne.
    + rewrite (poolIdentifierOf_two toLowerCase dexKey _ _ Hne). fold x y.
      destruct (String.ltb x y); reflexivity.
Qed.

(** X21. [getPricesVolume] answers [null] to every request: for equal
    tokens, for a [limitPools] without the pool, and in every other case
    because [getPairState] has an empty body and resolves to
    [undefined]. *)
Theorem getPricesVolume_always_null {Prices : Type}
    (toLowerCase : string -> string) (wrapETH : Tk.Token -> Z -> Tk.Token)
    (network : Z) (dexKey : string) (srcToken destToken : Tk.Token)
    (amounts : list Z) (side : bool) (blockNumber : Z)
    (limitPools : option (list string)) :
  getPricesVolume (Prices:=Prices) toLowerCase wrapETH network dexKey
    srcToken destToken amounts side blockNumber limitPools = Ret None.
Proof.
  unfold getPricesVolume, getPairState.
  destruct (String.eqb _ _); [reflexivity|].
  destruct limitPools as [pools|]; [|reflexivity].
  destruct (forallb _ pools); reflexivity.
Qed.

Section RegistryFacts.

Variable toLowerCase : string -> string.
Variable NULL_ADDRESS : string.

Lemma findPair_sym (getPair : string -> string -> Outcome string)
    (pairs : gmap string PairEntry) (from to : Tk.Token) :
  findPair toLowerCase getPair NULL_ADDRESS pairs from to =
  findPair toLowerCase getPair NULL_ADDRESS pairs to from.
Proof.
  unfold findPair.
  rewrite (String.eqb_sym (toLowerCase (Tk.address to))).
  destruct (String.eqb_spec (toLowerCase (Tk.address from))
              (toLowerCase (Tk.address to))) as [Heq|Hne]; [reflexivity|].
  rewrite (ltb_flip _ _ Hne).
  destruct (String.ltb (toLowerCase (Tk.address to)) _); reflexivity.
Qed.


End RegistryFacts.

(** X22. [findPair] does not depend on the order of the two tokens:
    (from, to) and (to, from) get the same answer and leave the same
    registry. *)
Theorem findPair_order_free (toLowerCase : string -> string)
    (getPair : string -> string -> Outcome string) (NULL_ADDRESS : string)
    (pairs : gmap string PairEntry) (from to : Tk.Token) :
  findPair toLowerCase getPair NULL_ADDRESS pairs from to =
  findPair toLowerCase getPair NULL_ADDRESS pairs to from.
Proof. apply findPair_sym. Qed.



(** X24. [generateState] never recovers a tick: it resolves to
    [undefined] without a subgraph URL; it rejects with TypeError as soon
    as the subgraph reports a tick (at the first [ticks.push]); and
    every state it resolves to has [ticks] undefined and comes from a
    response with an empty list of ticks. *)
Theorem generateState_recovers_no_tick
    (post : string -> Z -> Settled (option SubgraphData))
    (subgraphURL : option string) (blockNumber : Z) :
  (forall st,
     generateState post subgraphURL blockNumber = Resolved (Some st) ->
     gen_ticks st = None /\
     exists url rawPools,
       subgraphURL = Some url /\
       post url blockNumber = Resolved (Some (mkData (Some []) (Some rawPools)))) /\
  (forall url rawTicks rawPools,
     subgraphURL = Some url -> url <> EmptyString ->
     post url blockNumber = Resolved (Some (mkData (Some rawTicks) (Some rawPools))) ->
     rawTicks <> [] ->
     generateState post subgraphURL blockNumber = Rejected (JsRaised TypeError)).
Proof.
  split.
  - intros st. unfold generateState.
    destruct subgraphURL as [[|c url]|]; try discriminate.
    destruct (post _ blockNumber) as [[[[rawTicks|] [rawPools|]]|]|r] eqn:Hpost;
      try discriminate.
    destruct rawTicks as [|x rest]; simpl; [|discriminate].
    destruct rawPools as [|pool0 rest]; [discriminate|].
    intros H. injection H as <-. split; [reflexivity|]. eauto.
  - intros url rawTicks rawPools -> Hurl Hpost Hne. unfold generateState.
    destruct url as [|c url]; [contradiction|].
    rewrite Hpost. destruct rawTicks as [|x rest]; [contradiction|].
    reflexivity.
Qed.

Lemma generateState_recovers_no_tick_witness :
  generateState
    (fun _ _ =>
       Resolved
         (Some (mkData (Some [mkRawTick 5 10 false])
                  (Some [mkRawPool 0 10 500]))))
    (Some "https://subgraph") 1 = Rejected (JsRaised TypeError).
Proof.
  apply (proj2 (generateState_recovers_no_tick
                  (fun _ _ =>
                     Resolved
                       (Some (mkData (Some [mkRawTick 5 10 false])
                                (Some [mkRawPool 0 10 500]))))
                  (Some "https://subgraph") 1)
           "https://subgraph" [mkRawTick 5 10 false] [mkRawPool 0 10 500]);
    try reflexivity; discriminate.
Defined.

(** ** Mint on a book of bare numbers *)

(** X25. On a book whose cells are all bare numbers, as every book
    reached from a fresh pool is, Mint appends the two tick numbers of the
    event at the end of [ticks], in the order bottom, top, whatever is
    there already, and adds the amount to [currentLiquidity] exactly when
    bottomTick < currentTick < topTick. *)
Theorem handleMint_on_bare_numbers {Log : Type} (event : Ev.LogDescription)
    (pool : PoolRef) (log : Log) (h : gmap positive PoolState)
    (p : PoolState) :
  let L := Ev.amount (Ev.args event) in
  let bottomTick := Ev.bottomTick (Ev.args event) in
  let topTick := Ev.topTick (Ev.args event) in
  h !! pool = Some p ->
  Forall is_number (ticks p) ->
  handleMint event pool log h =
    (Ret pool,
     <[pool :=
         mkPool (ticks p ++ [TickNum bottomTick; TickNum topTick])
           (currentTick p)
           (if (bottomTick <? currentTick p) && (currentTick p <? topTick)
            then currentLiquidity p + L else currentLiquidity p)
           (fee p)]> h).
Proof.
  intros L bottomTick topTick Hp Hnum.
  rewrite (handleMint_not_found event pool log h p Hp
             (getTickIdx_numbers _ _ Hnum) (getTickIdx_numbers _ _ Hnum)).
  fold L bottomTick topTick.
  assert (Hall : Forall is_number
            (ticks p ++ [TickNum bottomTick; TickNum topTick])).
  { apply Forall_app. split; [exact Hnum|].
    repeat constructor; eexists; reflexivity. }
  rewrite (array_sort_numbers _ Hall).
  rewrite Z.gtb_ltb, andb_comm. reflexivity.
Qed.

Lemma handleMint_on_bare_numbers_witness :
  handleMint (Mint 5 10 3) theRef tt
    (single (mkPool [TickNum (-100); TickNum 100] 0 1000 500)) =
    (Ret theRef,
     <[theRef :=
         mkPool ([TickNum (-100); TickNum 100] ++ [TickNum 5; TickNum 10]) 0
           (if (5 <? 0) && (0 <? 10) then 1000 + 3 else 1000) 500]>
       (single (mkPool [TickNum (-100); TickNum 100] 0 1000 500))).
Proof.
  apply (handleMint_on_bare_numbers (Mint 5 10 3) theRef tt
           (single (mkPool [TickNum (-100); TickNum 100] 0 1000 500))
           (mkPool [TickNum (-100); TickNum 100] 0 1000 500)).
  - reflexivity.
  - repeat constructor; eexists; reflexivity.
Defined.
